(** * mmg (Mini Mailer): message assembly, Message-ID generation and the esub token

    A shallow embedding of the pure core of [src/mmg.go]: the header model
    ([parseHeaders], [extractEmailFromHeaders], [isValidEmail]), the message
    assembler inside [sendEmail], [generateMessageID], [normalizeLineEndings]
    and the esub token scheme ([deriveKey], [esubgen], [esubtest]); with
    them the transport of [sendEmail], the template editor ([saveTemplate],
    [selectTemplate], [deleteTemplate]), [encodeMIMESubject] and [log].

    [src/mmg.go] holds the program twice (lines 1-884 and 885-1592).  The
    header model and the identifier generator are the same in both; the esub
    token is in the first only; [sendEmail] differs in how it puts the
    message together and is modelled twice, as [Append.sendEmail]
    (mmg.go:761) and [Splice.sendEmail] (mmg.go:1418).

    Go strings are byte sequences: they are modelled by [string], whose
    characters are the 256 values of [ascii].  A [[]byte] is a [list byte].
    A Go [int] index is a [Z].  A [map[string]string] is a
    [gmap string string].  A function that can panic returns an [outcome].
    What [sendEmail] does to the user interface and to the network is the
    list of its [event]s. *)

From Stdlib Require Import ZArith NArith Lia List Ascii String.
From Stdlib Require Import DecimalString DecimalFacts DecimalPos DecimalN DecimalZ.
From Stdlib.Strings Require Import Byte.
From stdpp Require Import base gmap strings list.

Open Scope string_scope.
Open Scope list_scope.

#[global] Instance byte_eq_dec : EqDecision byte := Byte.byte_eq_dec.

(** ** Panics *)

Inductive outcome (A : Type) : Type :=
| Return (a : A)
| Panic (msg : string).
Arguments Return {A} a.
Arguments Panic {A} msg.

#[global] Instance outcome_ret : MRet outcome := fun A a => Return a.
#[global] Instance outcome_bind : MBind outcome := fun A B k o =>
  match o with
  | Return a => k a
  | Panic msg => Panic msg
  end.

(** ** The part of Go's [strings] package that the program calls *)

Module GoStrings.

Definition CR : ascii := "013".
Definition LF : ascii := "010".
Definition crlf : string := String CR (String LF EmptyString).
Definition lf : string := String LF EmptyString.

(** [s[n:]] for [n <= len(s)]. *)
Fixpoint string_drop (n : nat) (s : string) : string :=
  match n, s with
  | O, _ => s
  | S n', String _ s' => string_drop n' s'
  | S _, EmptyString => EmptyString
  end.

(** [strings.HasPrefix(s, prefix)]. *)
Fixpoint HasPrefix (s prefix : string) {struct prefix} : bool :=
  match prefix, s with
  | EmptyString, _ => true
  | String p prefix', String c s' =>
      if Ascii.eqb c p then HasPrefix s' prefix' else false
  | String _ _, EmptyString => false
  end.

(** [strings.Index(s, substr)]: the first position at which [substr]
    occurs, [-1] when there is none. *)
Fixpoint Index (s substr : string) : Z :=
  if HasPrefix s substr then 0%Z
  else match s with
       | EmptyString => (-1)%Z
       | String _ s' =>
           let i := Index s' substr in
           if (i <? 0)%Z then (-1)%Z else (i + 1)%Z
       end.

(** [strings.LastIndex(s, substr)]: the last position at which [substr]
    occurs, [-1] when there is none. *)
Fixpoint LastIndex (s substr : string) : Z :=
  match s with
  | EmptyString => if HasPrefix s substr then 0%Z else (-1)%Z
  | String _ s' =>
      let i := LastIndex s' substr in
      if (0 <=? i)%Z then (i + 1)%Z
      else if HasPrefix s substr then 0%Z else (-1)%Z
  end.

(** [strings.Contains(s, substr)] is [Index(s, substr) >= 0]. *)
Definition Contains (s substr : string) : bool := (0 <=? Index s substr)%Z.

(** The slice expression [s[lo:hi]]; Go panics unless
    [0 <= lo <= hi <= len(s)]. *)
Definition slice (s : string) (lo hi : Z) : outcome string :=
  if ((0 <=? lo)%Z && (lo <=? hi)%Z && (hi <=? Z.of_nat (String.length s))%Z)%bool
  then Return (substring (Z.to_nat lo) (Z.to_nat (hi - lo)) s)
  else Panic "slice bounds out of range".

(** For [m := Index(s, sep)], the pair [(s[:m], s[m+len(sep):])] that the
    loops of [genSplit] and [Replace] take apart; [None] when [m < 0]. *)
Fixpoint Cut (s sep : string) : option (string * string) :=
  if HasPrefix s sep then Some (EmptyString, string_drop (String.length sep) s)
  else match s with
       | EmptyString => None
       | String c s' =>
           match Cut s' sep with
           | Some (before, after) => Some (String c before, after)
           | None => None
           end
       end.

(** [strings.SplitN(s, sep, n)] for a non-empty [sep] and [n >= 0]: at most
    [n] pieces, the last one holding the unsplit rest. *)
Fixpoint SplitN (s sep : string) (n : nat) : list string :=
  match n with
  | O => []
  | S O => [s]
  | S n' =>
      match Cut s sep with
      | Some (before, after) => before :: SplitN after sep n'
      | None => [s]
      end
  end.

(** [strings.Split(s, sep)] for a non-empty [sep].  Go runs the loop of
    [genSplit] with [n = Count(s, sep) + 1]; the loop stops at the first
    failed search, so that any bound above the number of occurrences gives
    the same pieces, and [len(s) + 1] is such a bound. *)
Definition Split (s sep : string) : list string :=
  SplitN s sep (S (String.length s)).

(** [strings.Join(elems, sep)]. *)
Fixpoint Join (elems : list string) (sep : string) : string :=
  match elems with
  | [] => EmptyString
  | [e] => e
  | e :: rest => e +:+ sep +:+ Join rest sep
  end.

(** The loop of [strings.Replace]: [n] times, copy up to the next
    occurrence of [old] and write [new] in its place. *)
Fixpoint Replace_loop (n : nat) (s old new : string) : string :=
  match n with
  | O => s
  | S n' =>
      match Cut s old with
      | Some (before, after) => before +:+ new +:+ Replace_loop n' after old new
      | None => s
      end
  end.

(** [strings.ReplaceAll(s, old, new)] for a non-empty [old].  Go bounds the
    loop by [Count(s, old)]; [len(s)] bounds the number of occurrences, and
    the loop above leaves the rest as it is once none is left. *)
Definition ReplaceAll (s old new : string) : string :=
  if String.eqb old new then s else Replace_loop (String.length s) s old new.

(** Membership of a byte in an ASCII cutset. *)
Fixpoint in_cutset (c : ascii) (cutset : string) : bool :=
  match cutset with
  | EmptyString => false
  | String d cutset' => if Ascii.eqb c d then true else in_cutset c cutset'
  end.

(** [strings.TrimRight(s, cutset)] for an ASCII [cutset]: the trailing bytes
    that belong to [cutset] are removed. *)
Fixpoint TrimRight (s cutset : string) : string :=
  match s with
  | EmptyString => EmptyString
  | String c s' =>
      match TrimRight s' cutset with
      | EmptyString => if in_cutset c cutset then EmptyString else String c EmptyString
      | t => String c t
      end
  end.

End GoStrings.
Import GoStrings.

(** [strings.ToLower] and [strings.TrimSpace] read Go's Unicode tables.
    The program is modelled over any pair of functions in their place; the
    ASCII instance below agrees with Go on ASCII text and runs the
    examples. *)
Class GoUnicode : Type := {
  ToLower : string -> string;
  TrimSpace : string -> string
}.

Definition ascii_lower (c : ascii) : ascii :=
  let n := N_of_ascii c in
  if ((65 <=? n)%N && (n <=? 90)%N)%bool then ascii_of_N (n + 32) else c.

Fixpoint ascii_ToLower (s : string) : string :=
  match s with
  | EmptyString => EmptyString
  | String c s' => String (ascii_lower c) (ascii_ToLower s')
  end.

(** The ASCII white space of [strings.TrimSpace]: tab, LF, VT, FF, CR and
    space. *)
Definition ascii_space (c : ascii) : bool :=
  let n := N_of_ascii c in
  (((9 <=? n)%N && (n <=? 13)%N) || (n =? 32)%N)%bool.

Fixpoint trim_left_space (s : string) : string :=
  match s with
  | EmptyString => EmptyString
  | String c s' => if ascii_space c then trim_left_space s' else s
  end.

Fixpoint trim_right_space (s : string) : string :=
  match s with
  | EmptyString => EmptyString
  | String c s' =>
      match trim_right_space s' with
      | EmptyString => if ascii_space c then EmptyString else String c EmptyString
      | t => String c t
      end
  end.

Definition ascii_TrimSpace (s : string) : string :=
  trim_right_space (trim_left_space s).

Definition ascii_tables : GoUnicode :=
  {| ToLower := ascii_ToLower; TrimSpace := ascii_TrimSpace |}.

(** ** [encoding/hex] *)

Module GoHex.

Definition hextable : string := "0123456789abcdef".

(** [s[i]] for an index that is in range. *)
Definition byte_at (s : string) (i : nat) : ascii :=
  match String.get i s with
  | Some c => c
  | None => Ascii.zero
  end.

(** The byte with value [n], for [n < 256]. *)
Definition byte_of_N (n : N) : byte :=
  match Byte.of_N n with
  | Some b => b
  | None => x00
  end.

(** [hex.EncodeToString]: [hextable[v>>4]] and [hextable[v&0x0f]] for each
    byte [v]. *)
Fixpoint EncodeToString (src : list byte) : string :=
  match src with
  | [] => EmptyString
  | v :: rest =>
      String (byte_at hextable (N.to_nat (N.shiftr (Byte.to_N v) 4)))
        (String (byte_at hextable (N.to_nat (N.land (Byte.to_N v) 15)))
           (EncodeToString rest))
  end.

(** [reverseHexTable]: the value of a hex digit of either case, [0xff] for
    any other byte. *)
Definition reverseHexTable (c : ascii) : N :=
  let n := N_of_ascii c in
  if ((48 <=? n) && (n <=? 57))%N then (n - 48)%N
  else if ((97 <=? n) && (n <=? 102))%N then (n - 87)%N
  else if ((65 <=? n) && (n <=? 70))%N then (n - 55)%N
  else 255%N.

(** [hex.DecodeString]: [Some] of the decoded bytes when the error is
    [nil], [None] when it is [InvalidByteError] or [ErrLength] (the callers
    in this program drop the partial result). *)
Fixpoint DecodeString (s : string) : option (list byte) :=
  match s with
  | EmptyString => Some []
  | String p EmptyString => None
  | String p (String q rest) =>
      let a := reverseHexTable p in
      let b := reverseHexTable q in
      if (15 <? a)%N then None
      else if (15 <? b)%N then None
      else match DecodeString rest with
           | Some dst => Some (byte_of_N (N.lor (N.shiftl a 4) b) :: dst)
           | None => None
           end
  end.

End GoHex.
Import GoHex.

(** ** The primitives of [golang.org/x/crypto] *)

(** Argon2id, the ChaCha20 key stream and SHA3-256 are taken as they are
    documented: [argon2.IDKey] returns [keyLen] bytes, [sha3.Sum256] returns
    a [[32]byte], and [chacha20_keystream key nonce i] is byte [i] of the key
    stream of a fresh cipher. *)
Class Crypto : Type := {
  argon2_IDKey : list byte -> list byte -> N -> N -> N -> N -> list byte;
  argon2_IDKey_length : forall password salt time memory threads keyLen,
    length (argon2_IDKey password salt time memory threads keyLen) = N.to_nat keyLen;
  chacha20_keystream : list byte -> list byte -> nat -> byte;
  sha3_Sum256 : list byte -> list byte;
  sha3_Sum256_length : forall data, length (sha3_Sum256 data) = 32
}.

Record Cipher : Type := { cipher_key : list byte; cipher_nonce : list byte }.

(** [chacha20.NewUnauthenticatedCipher]: an error unless the key has 32
    bytes and the nonce 12 (or 24, for XChaCha20). *)
Definition NewUnauthenticatedCipher (key nonce : list byte) : option Cipher :=
  if ((length key =? 32) && ((length nonce =? 12) || (length nonce =? 24)))%nat
  then Some {| cipher_key := key; cipher_nonce := nonce |}
  else None.

Definition byte_xor (a b : byte) : byte :=
  byte_of_N (N.lxor (Byte.to_N a) (Byte.to_N b)).

(** [c.XORKeyStream(dst, src)] on a fresh cipher: the new content of [dst];
    it panics when [dst] is shorter than [src]. *)
Definition XORKeyStream {crypto : Crypto} (c : Cipher) (dst src : list byte) : outcome (list byte) :=
  if (length dst <? length src)%nat then Panic "chacha20: output smaller than input"
  else Return (imap (fun i x => byte_xor x (chacha20_keystream (cipher_key c) (cipher_nonce c) i)) src
                 ++ List.skipn (length src) dst).

(** ** mmg.go: the esub token (mmg.go:106-167) *)

Record esub : Type := { key : string; subject : string }.

Section Esub.
Context {crypto : Crypto}.

(** [deriveKey] (mmg.go:111). *)
Definition deriveKey (e : esub) : list byte :=
  let salt := list_byte_of_string "fixed-salt-1234" in
  argon2_IDKey (list_byte_of_string (key e)) salt 3 (64 * 1024) 4 32.

(** [esubtest] (mmg.go:124). *)
Definition esubtest (e : esub) : outcome bool :=
  if negb (String.length (subject e) =? 48)%nat then Return false
  else match DecodeString (subject e) with
       | None => Return false
       | Some esubBytes =>
           if negb (length esubBytes =? 24)%nat then Return false
           else
             let nonce := take 12 esubBytes in
             let receivedCiphertext := List.skipn 12 esubBytes in
             let key := deriveKey e in
             match NewUnauthenticatedCipher key nonce with
             | None => Return false
             | Some cipher =>
                 let textHash := sha3_Sum256 (list_byte_of_string "text") in
                 let expectedCiphertext := replicate 12 x00 in
                 expectedCiphertext ← XORKeyStream cipher expectedCiphertext (take 12 textHash);
                 Return (String.eqb (EncodeToString expectedCiphertext)
                                    (EncodeToString receivedCiphertext))
             end
       end.

(** [esubgen] (mmg.go:150); [nonce] is the content of the 12-byte buffer
    after [rand.Read] has filled it (on an error of [rand.Read] the source
    panics; a random source that fails is not modelled). *)
Definition esubgen (e : esub) (nonce : list byte) : outcome string :=
  let key := deriveKey e in
  match NewUnauthenticatedCipher key nonce with
  | None => Panic "chacha20: wrong key or nonce size"
  | Some cipher =>
      let textHash := sha3_Sum256 (list_byte_of_string "text") in
      let ciphertext := replicate 12 x00 in
      ciphertext ← XORKeyStream cipher ciphertext (take 12 textHash);
      Return (EncodeToString (nonce ++ ciphertext))
  end.

End Esub.

(** ** mmg.go: the header model and the identifier generator *)

(** [normalizeLineEndings] (mmg.go:703 and mmg.go:1353). *)
Definition normalizeLineEndings (input : string) : string :=
  ReplaceAll input lf crlf.

(** The random source: [rand.Int(rand.Reader, max)] returns a value of
    [[0, max)].  Draw number [cur] is entry [cur] of an entropy tape, reduced
    into the range, so that every value of the range can be drawn.  A
    random source that fails is not modelled ([generateMessageID] drops the
    error of [rand.Int]). *)
Definition entropy : Type := nat -> N.

Definition rand_Int (tape : entropy) (max : N) (cur : nat) : N * nat :=
  ((tape cur mod max)%N, S cur).

(** The loop [for i := range buf { buf[i] = pick(rand.Int(max)) }] over a
    buffer of [n] bytes. *)
Fixpoint random_bytes (tape : entropy) (pick : N -> ascii) (max : N)
    (n : nat) (cur : nat) : string * nat :=
  match n with
  | O => (EmptyString, cur)
  | S n' =>
      let '(randomIndex, cur) := rand_Int tape max cur in
      let '(rest, cur) := random_bytes tape pick max n' cur in
      (String (pick randomIndex) rest, cur)
  end.

Definition alphanumeric : string := "abcdefghijklmnopqrstuvwxyz0123456789".

(** The verb [%d] of [fmt.Sprintf] on an [int64]. *)
Definition fmt_d (n : Z) : string := NilEmpty.string_of_int (Z.to_int n).

(** [generateMessageID] (mmg.go:707 and mmg.go:1357); [unixTime] is
    [time.Now().Unix()]. *)
Definition generateMessageID (tape : entropy) (unixTime : Z) : string :=
  let '(randomPart1, cur) :=
    random_bytes tape (fun i => byte_at alphanumeric (N.to_nat i))
      (N.of_nat (String.length alphanumeric)) 10 0 in
  let '(randomHostname, cur) :=
    random_bytes tape (fun i => ascii_of_N (97 + i)) 26 5 cur in
  let '(randomTLD, cur) :=
    random_bytes tape (fun i => ascii_of_N (97 + i)) 26 2 cur in
  "<" +:+ randomPart1 +:+ "." +:+ fmt_d unixTime +:+ "@" +:+ randomHostname
      +:+ "." +:+ randomTLD +:+ ">".

Section Headers.
Context {unicode : GoUnicode}.

(** The loop of [parseHeaders] over the lines of the header part. *)
Fixpoint parseHeaders_loop (lines : list string) (headers : gmap string string)
    : gmap string string :=
  match lines with
  | [] => headers
  | line :: lines' =>
      if String.eqb line "" then headers
      else match SplitN line ": " 2 with
           | [k; v] =>
               parseHeaders_loop lines' (<[TrimSpace (ToLower k) := TrimSpace v]> headers)
           | _ => parseHeaders_loop lines' headers
           end
  end.

(** [parseHeaders] (mmg.go:728 and mmg.go:1382). *)
Definition parseHeaders (rawContent : string) : gmap string string :=
  let parts := SplitN rawContent (crlf +:+ crlf) 2 in
  let headerPart := List.hd EmptyString parts in
  let lines := Split headerPart crlf in
  parseHeaders_loop lines ∅.

(** [extractEmailFromHeaders] (mmg.go:745 and mmg.go:1402). *)
Definition extractEmailFromHeaders (headers : gmap string string) (headerKey : string)
    : outcome string :=
  match headers !! ToLower headerKey with
  | Some value =>
      if Contains value "<" && Contains value ">" then
        let start := LastIndex value "<" in
        let end_ := LastIndex value ">" in
        slice value start (end_ + 1)
      else Return value
  | None => Return EmptyString
  end.

End Headers.

(** [isValidEmail] (mmg.go:757 and mmg.go:1414). *)
Definition isValidEmail (email : string) : bool :=
  Contains email "@" && Contains email ".".

(** ** mmg.go: [sendEmail] *)

(** What a send does to the outside, in the order of execution: the error
    dialog, the status label, and the calls on the proxy dialer, the
    connection, the SMTP client and the data writer. *)
Inductive event : Type :=
| ShowError (msg : string)
| SetStatus (text : string)
| ProxySOCKS5 (addr : string)
| Dial (addr : string)
| ConnClose
| NewClient (host : string)
| ClientQuit
| StartTLS
| Auth (username password host : string)
| Mail (from : string)
| Rcpt (to : string)
| Data
| Write (message : string)
| WriterClose.

(** The events of the transport, as opposed to those of the user
    interface. *)
Definition is_network (e : event) : bool :=
  match e with
  | ShowError _ | SetStatus _ => false
  | _ => true
  end.

(** The entry widgets that [sendEmail] reads. *)
Record GUI : Type := {
  messageEnt : string;
  socksPortEnt : string;
  hostEnt : string;
  portEnt : string;
  usernameEnt : string;
  passwordEnt : string
}.

(** How the outside answers one send: for each call of the transport, the
    text of its error, or [None] when it succeeds. *)
Record network : Type := {
  socks5_err : option string;
  dial_err : option string;
  newclient_err : option string;
  starttls_err : option string;
  auth_err : option string;
  mail_err : option string;
  rcpt_err : option string;
  data_err : option string;
  write_err : option string
}.

(** The environment of one send: the random source, the clock (as Unix
    seconds and as [time.Now().UTC().Format(time.RFC1123Z)]) and the
    network. *)
Record world : Type := {
  tape : entropy;
  unixTime : Z;
  now_rfc1123z : string;
  net : network
}.

(** One call of the transport: on an error the status label and the error
    dialog are set, the deferred calls run and the goroutine returns;
    otherwise the send goes on. *)
Definition stage (call : list event) (err : option string)
    (status dialog : string) (deferred : list event) (next : list event) : list event :=
  call ++ match err with
          | Some e => [SetStatus (status +:+ e); ShowError (dialog +:+ e)] ++ deferred
          | None => next
          end.

(** The goroutine of [sendEmail] (mmg.go:792-877 and mmg.go:1473-1591); the
    two copies set the same texts and make the same calls in the same
    order. *)
Definition transport (g : GUI) (n : network) (from to message : string) : list event :=
  stage [SetStatus "Connecting to SOCKS proxy..."; ProxySOCKS5 ("127.0.0.1:" +:+ socksPortEnt g)]
    (socks5_err n) "SOCKS Error: " "SOCKS5 error: " [] (
  stage [SetStatus "Connecting to SMTP server..."; Dial (hostEnt g +:+ ":" +:+ portEnt g)]
    (dial_err n) "Connection Error: " "Connection failed: " [] (
  stage [SetStatus "Starting SMTP handshake..."; NewClient (hostEnt g)]
    (newclient_err n) "SMTP Init Error: " "SMTP init failed: " [ConnClose] (
  stage [SetStatus "Starting TLS..."; StartTLS]
    (starttls_err n) "TLS Error: " "TLS failed: " [ClientQuit; ConnClose] (
  (fun next =>
     if negb (String.eqb (usernameEnt g) "") && negb (String.eqb (passwordEnt g) "") then
       stage [SetStatus "Authenticating..."; Auth (usernameEnt g) (passwordEnt g) (hostEnt g)]
         (auth_err n) "Auth Error: " "Auth failed: " [ClientQuit; ConnClose] next
     else next) (
  stage [SetStatus "Sending MAIL FROM..."; Mail from]
    (mail_err n) "MAIL FROM Error: " "MAIL FROM failed: " [ClientQuit; ConnClose] (
  stage [SetStatus "Sending RCPT TO..."; Rcpt to]
    (rcpt_err n) "RCPT TO Error: " "RCPT TO failed: " [ClientQuit; ConnClose] (
  stage [SetStatus "Sending DATA..."; Data]
    (data_err n) "DATA Error: " "DATA failed: " [ClientQuit; ConnClose] (
  stage [Write message]
    (write_err n) "Write Error: " "Message write failed: " [WriterClose; ClientQuit; ConnClose] (
  [SetStatus "Email sent successfully"; WriterClose; ClientQuit; ConnClose]))))))))).

Section SendEmail.
Context {unicode : GoUnicode}.

(** The two header lines that [sendEmail] makes up when the message has
    none (mmg.go:773-779 and mmg.go:1431-1437). *)
Definition messageIDHeader_of (headers : gmap string string) (w : world) : string :=
  match headers !! "message-id" with
  | Some _ => EmptyString
  | None => "Message-ID: " +:+ generateMessageID (tape w) (unixTime w) +:+ crlf
  end.

Definition dateHeader_of (headers : gmap string string) (w : world) : string :=
  match headers !! "date" with
  | Some _ => EmptyString
  | None => "Date: " +:+ now_rfc1123z w +:+ crlf
  end.

(** The message of mmg.go:781-786 (there it is assigned to [rawContent])
    and of mmg.go:1441-1448 (there it is the first value of
    [fullMessage]). *)
Definition appended (rawContent messageIDHeader dateHeader : string) : string :=
  match SplitN rawContent (crlf +:+ crlf) 2 with
  | [header; body] =>
      header +:+ crlf +:+ messageIDHeader +:+ dateHeader +:+ crlf +:+ crlf +:+ body
  | _ => rawContent +:+ crlf +:+ messageIDHeader +:+ dateHeader +:+ crlf
  end.

(** The body of the loop of mmg.go:1454-1464. *)
Definition splice_step (messageIDHeader dateHeader : string)
    (newHeaders : list string) (header : string) : list string :=
  let newHeaders := newHeaders ++ [header] in
  if HasPrefix (ToLower header) "subject:" then
    let newHeaders :=
      if negb (String.eqb messageIDHeader "")
      then newHeaders ++ [TrimRight messageIDHeader crlf] else newHeaders in
    if negb (String.eqb dateHeader "")
    then newHeaders ++ [TrimRight dateHeader crlf] else newHeaders
  else newHeaders.

(** The message of mmg.go:1450-1469: the second and last value of
    [fullMessage]. *)
Definition spliced (rawContent messageIDHeader dateHeader : string) : string :=
  match SplitN rawContent (crlf +:+ crlf) 2 with
  | [header; body] =>
      let headers := Split header crlf in
      let newHeaders := fold_left (splice_step messageIDHeader dateHeader) headers [] in
      Join newHeaders crlf +:+ crlf +:+ crlf +:+ body
  | _ => rawContent +:+ crlf +:+ messageIDHeader +:+ dateHeader +:+ crlf
  end.

End SendEmail.

(** [sendEmail] of mmg.go:761. *)
Module Append.
Section Append.
Context {unicode : GoUnicode}.

Definition sendEmail (g : GUI) (w : world) : outcome (list event) :=
  let rawContent := normalizeLineEndings (messageEnt g) in
  let headers := parseHeaders rawContent in
  from ← extractEmailFromHeaders headers "from";
  to ← extractEmailFromHeaders headers "to";
  if negb (isValidEmail from) || negb (isValidEmail to) then
    Return [ShowError "Invalid 'From' or 'To' address"]
  else
    let messageIDHeader := messageIDHeader_of headers w in
    let dateHeader := dateHeader_of headers w in
    let rawContent := appended rawContent messageIDHeader dateHeader in
    Return (SetStatus "Starting SMTP session..." :: transport g (net w) from to rawContent).

End Append.
End Append.

(** [sendEmail] of mmg.go:1418. *)
Module Splice.
Section Splice.
Context {unicode : GoUnicode}.

Definition sendEmail (g : GUI) (w : world) : outcome (list event) :=
  let rawContent := normalizeLineEndings (messageEnt g) in
  let headers := parseHeaders rawContent in
  from ← extractEmailFromHeaders headers "from";
  to ← extractEmailFromHeaders headers "to";
  if negb (isValidEmail from) || negb (isValidEmail to) then
    Return [ShowError "Invalid 'From' or 'To' address"]
  else
    let messageIDHeader := messageIDHeader_of headers w in
    let dateHeader := dateHeader_of headers w in
    let fullMessage := appended rawContent messageIDHeader dateHeader in
    let fullMessage := spliced rawContent messageIDHeader dateHeader in
    Return (SetStatus "Starting SMTP session..." :: transport g (net w) from to fullMessage).

End Splice.
End Splice.

(** ** Vocabulary of the statements *)

(** The message that a run hands to the data writer, when it gets there. *)
Fixpoint written (tr : list event) : option string :=
  match tr with
  | [] => None
  | Write message :: _ => Some message
  | _ :: tr' => written tr'
  end.

(** A header line that begins, in any case, with [subject:]. *)
Definition is_subject {unicode : GoUnicode} (header : string) : bool :=
  HasPrefix (ToLower header) "subject:".

(** The made-up header lines as the loop of mmg.go:1454 inserts them. *)
Definition synthesized (messageIDHeader dateHeader : string) : list string :=
  (if String.eqb messageIDHeader "" then [] else [TrimRight messageIDHeader crlf])
  ++ (if String.eqb dateHeader "" then [] else [TrimRight dateHeader crlf]).

(** The header lines with the made-up lines after each subject line. *)
Definition with_synthesized {unicode : GoUnicode} (messageIDHeader dateHeader : string)
    (headers : list string) : list string :=
  flat_map (fun h => h :: (if is_subject h
                           then synthesized messageIDHeader dateHeader else []))
           headers.

(** Line breaks that are not CRLF: an LF that no CR precedes, a CR that no
    LF follows. *)
Fixpoint bare_LF_after (prev : ascii) (s : string) : bool :=
  match s with
  | EmptyString => false
  | String c s' =>
      (Ascii.eqb c LF && negb (Ascii.eqb prev CR)) || bare_LF_after c s'
  end.

Definition has_bare_LF (s : string) : bool := bare_LF_after Ascii.zero s.

Fixpoint has_bare_CR (s : string) : bool :=
  match s with
  | EmptyString => false
  | String c s' =>
      (Ascii.eqb c CR && negb (HasPrefix s' lf)) || has_bare_CR s'
  end.





(** The lower-case hex digits, and a token with its digits [a]..[f] put in
    upper case. *)
Definition is_lower_hex (c : ascii) : bool :=
  let n := N_of_ascii c in
  (((48 <=? n) && (n <=? 57)) || ((97 <=? n) && (n <=? 102)))%N.

Definition is_hex_digit (c : ascii) : bool :=
  let n := N_of_ascii c in
  (((48 <=? n) && (n <=? 57)) || ((97 <=? n) && (n <=? 102))
   || ((65 <=? n) && (n <=? 70)))%N.

Definition hex_upper_digit (c : ascii) : ascii :=
  let n := N_of_ascii c in
  if ((97 <=? n) && (n <=? 102))%N then ascii_of_N (n - 32) else c.

Fixpoint hex_upper (s : string) : string :=
  match s with
  | EmptyString => EmptyString
  | String c s' => String (hex_upper_digit c) (hex_upper s')
  end.

(** The cipher text that [esubtest] and [esubgen] compute for a key and
    a nonce: the first 12 bytes of the SHA3-256 digest of "text", XORed with
    the key stream. *)
Definition expected_ciphertext {crypto : Crypto} (key nonce : list byte) : list byte :=
  imap (fun i x => byte_xor x (chacha20_keystream key nonce i))
       (take 12 (sha3_Sum256 (list_byte_of_string "text"))).

(** Primitives of the right sizes with which the token scheme can be run:
    an all-zero key, digest and key stream. *)
Definition toy_crypto : Crypto :=
  {| argon2_IDKey := fun _ _ _ _ _ keyLen => replicate (N.to_nat keyLen) x00;
     argon2_IDKey_length := fun _ _ _ _ _ keyLen => length_replicate (N.to_nat keyLen) x00;
     chacha20_keystream := fun _ _ _ => x00;
     sha3_Sum256 := fun _ => replicate 32 x00;
     sha3_Sum256_length := fun _ => length_replicate 32 x00 |}.

(** A network on which every call succeeds, a clock and a random tape. *)
Definition network_up : network :=
  {| socks5_err := None; dial_err := None; newclient_err := None;
     starttls_err := None; auth_err := None; mail_err := None;
     rcpt_err := None; data_err := None; write_err := None |}.

Definition world0 : world :=
  {| tape := fun i => N.of_nat (7 * i + 3);
     unixTime := 1700000000;
     now_rfc1123z := "Tue, 14 Nov 2023 22:13:20 +0000";
     net := network_up |}.

Definition compose (text : string) : GUI :=
  {| messageEnt := text; socksPortEnt := "9050"; hostEnt := "mail.example";
     portEnt := "25"; usernameEnt := ""; passwordEnt := "" |}.

(** What the replacement does byte by byte: CR LF for each LF. *)
Fixpoint expand_LF (s : string) : string :=
  match s with
  | EmptyString => EmptyString
  | String c s' =>
      if Ascii.eqb c LF then String CR (String LF (expand_LF s'))
      else String c (expand_LF s')
  end.

(** The texts of the examples. *)
Definition scenario : string :=
  "From: a@x.com" +:+ lf +:+ "To: b@y.com" +:+ lf +:+ "Subject: hi" +:+ lf +:+ lf +:+ "body".

Definition two_subjects : string :=
  "Subject: a" +:+ lf +:+ "Subject: b" +:+ lf +:+ "From: a@x.com" +:+ lf
  +:+ "To: b@y.com" +:+ lf +:+ lf +:+ "body".

Definition subject_first_no_body : string :=
  "Subject: hi" +:+ lf +:+ "From: a@x.com" +:+ lf +:+ "To: b@y.com".

Definition subject_first : string :=
  "Subject: hi" +:+ lf +:+ "From: a@x.com" +:+ lf +:+ "To: b@y.com" +:+ lf +:+ lf +:+ "body".

Definition two_subjects_no_body : string :=
  "Subject: a" +:+ lf +:+ "Subject: b" +:+ lf +:+ "From: a@x.com" +:+ lf +:+ "To: b@y.com".

Definition no_subject : string :=
  "From: a@x.com" +:+ lf +:+ "To: b@y.com" +:+ lf +:+ lf +:+ "body".

(** The events of a run, and the message it writes, for the examples. *)
Definition run_of (o : outcome (list event)) : list event :=
  match o with
  | Return tr => tr
  | Panic _ => []
  end.

Definition message_of (o : outcome (list event)) : string :=
  match written (run_of o) with
  | Some m => m
  | None => EmptyString
  end.

(** The made-up lines of the examples, at [world0]. *)
Definition messageID0 : string := "Message-ID: <dkry5cjqx4.1700000000@vcjqx.el>".
Definition date0 : string := "Date: Tue, 14 Nov 2023 22:13:20 +0000".

(** ** Vocabulary of the transport *)

(** The calls of the transport that go to the proxy or to the server, as
    opposed to the closing calls that the [defer] statements make. *)
Definition is_call (e : event) : bool :=
  match e with
  | ProxySOCKS5 _ | Dial _ | NewClient _ | StartTLS | Auth _ _ _
  | Mail _ | Rcpt _ | Data | Write _ => true
  | _ => false
  end.

Definition is_close (e : event) : bool :=
  match e with
  | WriterClose | ClientQuit | ConnClose => true
  | _ => false
  end.

Definition is_dialog (e : event) : bool :=
  match e with
  | ShowError _ => true
  | _ => false
  end.

Definition is_success (e : event) : bool :=
  match e with
  | SetStatus text => String.eqb text "Email sent successfully"
  | _ => false
  end.

(** What goes over the connection once it is encrypted: the credentials,
    the envelope and the message. *)
Definition is_after_tls (e : event) : bool :=
  match e with
  | Auth _ _ _ | Mail _ | Rcpt _ | Data | Write _ => true
  | _ => false
  end.

Definition is_auth (e : event) : bool :=
  match e with
  | Auth _ _ _ => true
  | _ => false
  end.

(** The test of mmg.go:835 and mmg.go:1532: both credentials are given. *)
Definition has_credentials (g : GUI) : bool :=
  negb (String.eqb (usernameEnt g) "") && negb (String.eqb (passwordEnt g) "").

(** All the calls of a send that nothing stops, in their order, and the
    answers of the network to them. *)
Definition all_calls (g : GUI) (from to message : string) : list event :=
  [ProxySOCKS5 ("127.0.0.1:" +:+ socksPortEnt g); Dial (hostEnt g +:+ ":" +:+ portEnt g);
   NewClient (hostEnt g); StartTLS]
  ++ (if has_credentials g then [Auth (usernameEnt g) (passwordEnt g) (hostEnt g)] else [])
  ++ [Mail from; Rcpt to; Data; Write message].

Definition answers (g : GUI) (n : network) : list (option string) :=
  [socks5_err n; dial_err n; newclient_err n; starttls_err n]
  ++ (if has_credentials g then [auth_err n] else [])
  ++ [mail_err n; rcpt_err n; data_err n; write_err n].

Definition is_ok (answer : option string) : bool :=
  match answer with
  | None => true
  | Some _ => false
  end.

(** The number of calls up to the first one that fails, that one
    included. *)
Fixpoint calls_made (answers : list (option string)) : nat :=
  match answers with
  | [] => 0
  | None :: rest => S (calls_made rest)
  | Some _ :: _ => 1
  end.

(** ** mmg.go: the templates *)

(** The template editor (mmg.go:438-494 and mmg.go:1072-1135): the list of
    templates, the selection and the four entry widgets that the editor
    reads and fills. *)
Module Templates.

Record Template : Type := {
  Name : string;
  Headers : string;
  Body : string;
  Description : string
}.

Record editor : Type := {
  templates : list Template;
  selectedTemplate : Z;
  templateName : string;
  templateDesc : string;
  templateEditor : string;
  messageEnt : string
}.

(** What the editor does to the outside: the error dialog, the call of
    [saveTemplates] with the list it writes, and the refresh of the list
    widget. *)
Inductive action : Type :=
| ShowError (msg : string)
| SaveTemplates (ts : list Template)
| Refresh.

(** The loop of [saveTemplate]: the first template of the same name is
    replaced; [found] tells whether there was one. *)
Fixpoint saveTemplate_loop (ts : list Template) (newTemplate : Template)
    : list Template * bool :=
  match ts with
  | [] => ([], false)
  | t :: rest =>
      if String.eqb (Name t) (Name newTemplate) then (newTemplate :: rest, true)
      else let '(rest', found) := saveTemplate_loop rest newTemplate in
           (t :: rest', found)
  end.

Definition with_templates (g : editor) (ts : list Template) : editor :=
  {| templates := ts; selectedTemplate := selectedTemplate g;
     templateName := templateName g; templateDesc := templateDesc g;
     templateEditor := templateEditor g; messageEnt := messageEnt g |}.

(** [saveTemplate] (mmg.go:438 and mmg.go:1072); [save_err] is the error
    that [saveTemplates] returns, if any. *)
Definition saveTemplate {unicode : GoUnicode} (g : editor) (save_err : option string)
    : editor * list action :=
  if String.eqb (templateName g) "" then (g, [ShowError "Template name is required"])
  else
    let headers := TrimSpace (templateEditor g) in
    let body := TrimSpace (messageEnt g) in
    let newTemplate :=
      {| Name := templateName g; Description := templateDesc g;
         Headers := headers; Body := body |} in
    let '(ts, found) := saveTemplate_loop (templates g) newTemplate in
    let ts := if found then ts else ts ++ [newTemplate] in
    let g := with_templates g ts in
    match save_err with
    | Some err => (g, [SaveTemplates ts; ShowError err])
    | None => (g, [SaveTemplates ts; Refresh])
    end.

(** The template that [saveTemplate] builds from the entry widgets. *)
Definition saved {unicode : GoUnicode} (g : editor) : Template :=
  {| Name := templateName g; Description := templateDesc g;
     Headers := TrimSpace (templateEditor g); Body := TrimSpace (messageEnt g) |}.

(** [selectTemplate] (mmg.go:469 and mmg.go:1107); [g.templates[id]] panics
    when [id] is out of range. *)
Definition selectTemplate (g : editor) (id : Z) : outcome editor :=
  match (if (0 <=? id)%Z then templates g !! Z.to_nat id else None) with
  | Some template =>
      Return {| templates := templates g; selectedTemplate := id;
                templateName := Name template; templateDesc := Description template;
                templateEditor := Headers template; messageEnt := Body template |}
  | None => Panic "index out of range"
  end.

(** [deleteTemplate] (mmg.go:478 and mmg.go:1116). *)
Definition deleteTemplate (g : editor) (save_err : option string) : editor * list action :=
  if ((selectedTemplate g <? 0)%Z
      || (Z.of_nat (length (templates g)) <=? selectedTemplate g)%Z)%bool
  then (g, [ShowError "No template selected"])
  else
    let i := Z.to_nat (selectedTemplate g) in
    let ts := take i (templates g) ++ drop (i + 1) (templates g) in
    match save_err with
    | Some err => (with_templates g ts, [SaveTemplates ts; ShowError err])
    | None =>
        ({| templates := ts; selectedTemplate := -1; templateName := "";
            templateDesc := ""; templateEditor := ""; messageEnt := "" |},
         [SaveTemplates ts; Refresh])
    end.

End Templates.

(** ** mmg.go: the MIME subject encoder and the status log *)

(** [mime.BEncoding.Encode(charset, s)] of Go's [mime] package. *)
Class GoMime : Type := {
  BEncoding_Encode : string -> string -> string
}.

(** [strings.HasSuffix] and [strings.TrimSuffix]. *)
Definition HasSuffix (s suffix : string) : bool :=
  (String.length suffix <=? String.length s)%nat
  && String.eqb (string_drop (String.length s - String.length suffix) s) suffix.

Definition TrimSuffix (s suffix : string) : string :=
  if HasSuffix s suffix then substring 0 (String.length s - String.length suffix) s
  else s.

(** The loop of [encodeMIMESubject] over [parts[:len(parts)-1]]; [i] is the
    index of the part. *)
Fixpoint encodeMIMESubject_loop (i : nat) (parts : list string) (result : string) : string :=
  match parts with
  | [] => result
  | part :: rest =>
      let result := if (0 <? i)%nat then result +:+ "" else result in
      encodeMIMESubject_loop (S i) rest (result +:+ (part +:+ "?=" +:+ lf))
  end.

(** [encodeMIMESubject] (mmg.go:173). *)
Definition encodeMIMESubject {mime : GoMime} (Subject : string) : string :=
  if String.eqb Subject "" then EmptyString
  else
    let encoded := BEncoding_Encode "UTF-8" Subject in
    let parts := Split encoded "?=" in
    if (length parts <=? 1)%nat then encoded
    else
      let result := encodeMIMESubject_loop 0 (removelast parts) EmptyString in
      let result := result +:+ List.last parts EmptyString in
      TrimSuffix result lf.

(** [log] (mmg.go:1293): the text that it puts on the status label, and
    whether it starts the timer that puts "Ready to send" back after five
    seconds. *)
Definition log (message : string) : string * bool :=
  let maxLogLength := 80 in
  let message :=
    if (maxLogLength <? String.length message)%nat
    then substring 0 maxLogLength message +:+ "..." else message in
  (message, Contains message "Email sent successfully").

(** The strings of a list, one after the other. *)
Fixpoint concat_all (l : list string) : string :=
  match l with
  | [] => EmptyString
  | x :: rest => x +:+ concat_all rest
  end.

(** [mime.BEncoding.Encode] on a subject of printable ASCII: Go gives such a
    subject back as it is ([needsEncoding] is false for it). *)
Definition unencoded : GoMime := {| BEncoding_Encode := fun _ s => s |}.

(** A message that has its own Message-ID and Date lines. *)
Definition complete : string :=
  "From: a@x.com" +:+ lf +:+ "To: b@y.com" +:+ lf +:+ "Subject: hi" +:+ lf
  +:+ "Message-ID: <1@x.com>" +:+ lf +:+ "Date: Tue, 14 Nov 2023 22:13:20 +0000" +:+ lf
  +:+ lf +:+ "body".

(** A template editor with two templates, the second one selected and its
    name in the name entry. *)
Definition editor0 : Templates.editor :=
  {| Templates.templates :=
       [ {| Templates.Name := "hello"; Templates.Headers := "Subject: hello";
            Templates.Body := "Hello."; Templates.Description := "greeting" |};
         {| Templates.Name := "bye"; Templates.Headers := "Subject: bye";
            Templates.Body := "Bye."; Templates.Description := "" |} ];
     Templates.selectedTemplate := 1;
     Templates.templateName := "bye";
     Templates.templateDesc := "farewell";
     Templates.templateEditor := " Subject: good bye ";
     Templates.messageEnt := "Good bye." +:+ lf |}.

(** * Facts *)

#[local] Arguments String.append !s1 s2 : simpl nomatch.

(** ** Strings *)

Section StringFacts.

Lemma append_nil_r (s : string) : s +:+ "" = s.
Proof. induction s as [|c s IH]; simpl; [reflexivity | now rewrite IH]. Qed.

Lemma append_assoc (s t u : string) : (s +:+ t) +:+ u = s +:+ t +:+ u.
Proof. induction s as [|c s IH]; simpl; [reflexivity | now rewrite IH]. Qed.

Lemma length_append (s t : string) :
  String.length (s +:+ t) = String.length s + String.length t.
Proof. induction s as [|c s IH]; simpl; [reflexivity | now rewrite IH]. Qed.

Lemma HasPrefix_app (p r : string) : HasPrefix (p +:+ r) p = true.
Proof.
  induction p as [|c p IH]; simpl; [reflexivity |].
  now rewrite Ascii.eqb_refl.
Qed.

Lemma HasPrefix_split (s p : string) :
  HasPrefix s p = true -> s = p +:+ string_drop (String.length p) s.
Proof.
  revert s. induction p as [|c p IH]; intros [|d s]; simpl; try easy.
  destruct (Ascii.eqb_spec d c) as [->|]; [|easy].
  intros Hp. now rewrite <- (IH s Hp).
Qed.

Lemma Cut_Some (s sep before after : string) :
  Cut s sep = Some (before, after) -> s = before +:+ sep +:+ after.
Proof.
  revert before after. induction s as [|c s IH]; intros before after; simpl.
  - destruct (HasPrefix "" sep) eqn:Hp; [|easy].
    intros [= <- <-]. now apply HasPrefix_split.
  - destruct (HasPrefix (String c s) sep) eqn:Hp.
    + intros [= <- <-]. now apply HasPrefix_split.
    + destruct (Cut s sep) as [[b a]|] eqn:Hc; [|easy].
      intros [= <- <-]. simpl. now rewrite <- (IH b a).
Qed.

Lemma SplitN_nonempty (s sep : string) (n : nat) : SplitN s sep (S n) <> [].
Proof. destruct n; simpl; [easy |]. now destruct (Cut s sep) as [[? ?]|]. Qed.

Lemma Join_cons (e : string) (rest : list string) (sep : string) :
  rest <> [] -> Join (e :: rest) sep = e +:+ sep +:+ Join rest sep.
Proof. now destruct rest. Qed.

(** Joining the pieces of a split gives the string back. *)
Lemma Join_SplitN (s sep : string) (n : nat) : Join (SplitN s sep (S n)) sep = s.
Proof.
  revert s. induction n as [|n IH]; intros s; [reflexivity |].
  change (SplitN s sep (S (S n))) with
    (match Cut s sep with
     | Some (before, after) => before :: SplitN after sep (S n)
     | None => [s]
     end).
  destruct (Cut s sep) as [[b a]|] eqn:Hc; [|reflexivity].
  rewrite Join_cons by apply SplitN_nonempty.
  rewrite IH. symmetry. now apply Cut_Some.
Qed.

Lemma Join_Split (s sep : string) : Join (Split s sep) sep = s.
Proof. apply Join_SplitN. Qed.

(** The two shapes of [SplitN s sep 2]. *)
Lemma SplitN_2 (s sep : string) :
  (exists header body, SplitN s sep 2 = [header; body] /\ s = header +:+ sep +:+ body)
  \/ SplitN s sep 2 = [s].
Proof.
  simpl. destruct (Cut s sep) as [[b a]|] eqn:Hc; [left | now right].
  exists b, a. split; [reflexivity | now apply Cut_Some].
Qed.

Lemma Index_ge (s sub : string) : (-1 <= Index s sub)%Z.
Proof.
  induction s as [|d s IH]; simpl.
  - destruct (HasPrefix "" sub); lia.
  - destruct (HasPrefix (String d s) sub); [lia |].
    destruct (Index s sub <? 0)%Z eqn:E; lia.
Qed.

(** There is nothing to cut exactly when the separator does not occur. *)
Lemma Cut_None_Index (s sep : string) : Cut s sep = None <-> Index s sep = (-1)%Z.
Proof.
  induction s as [|c s IH]; simpl.
  - destruct (HasPrefix "" sep); split; easy.
  - destruct (HasPrefix (String c s) sep); [split; easy |].
    pose proof (Index_ge s sep) as Hge.
    destruct (Cut s sep) as [[b a]|].
    + assert (Hne : Index s sep <> (-1)%Z) by (intros Hi; now apply IH in Hi).
      destruct (Index s sep <? 0)%Z eqn:E; [apply Z.ltb_lt in E; lia |].
      apply Z.ltb_ge in E. split; [easy | lia].
    + rewrite (proj1 IH eq_refl). simpl. split; reflexivity.
Qed.

Lemma Cut_None_Contains (s sep : string) : Cut s sep = None <-> Contains s sep = false.
Proof.
  rewrite Cut_None_Index. unfold Contains. pose proof (Index_ge s sep).
  split; intros Hi.
  - rewrite Hi. reflexivity.
  - apply Z.leb_gt in Hi. lia.
Qed.

Lemma Cut_shorter (s sep before after : string) :
  sep <> EmptyString -> Cut s sep = Some (before, after) ->
  String.length after < String.length s.
Proof.
  intros Hsep Hcut. apply Cut_Some in Hcut. subst s.
  rewrite !length_append. destruct sep; [easy | simpl; lia].
Qed.

(** Any bound above the length gives the pieces of [Split]. *)
Lemma SplitN_enough (s sep : string) (n : nat) :
  sep <> EmptyString -> String.length s <= n -> SplitN s sep (S n) = Split s sep.
Proof.
  intros Hsep. unfold Split.
  assert (Hgen : forall n n' s, String.length s <= n -> String.length s <= n' ->
                   SplitN s sep (S n) = SplitN s sep (S n')).
  { clear s n. induction n as [|n IH]; intros n' s Hn Hn'.
    - destruct s; [| simpl in Hn; lia].
      destruct n'; [reflexivity |].
      change (SplitN "" sep (S (S n'))) with
        (match Cut "" sep with
         | Some (before, after) => before :: SplitN after sep (S n')
         | None => [""]
         end).
      simpl. now destruct sep.
    - change (SplitN s sep (S (S n))) with
        (match Cut s sep with
         | Some (before, after) => before :: SplitN after sep (S n)
         | None => [s]
         end).
      destruct (Cut s sep) as [[b a]|] eqn:Hcut.
      + pose proof (Cut_shorter _ _ _ _ Hsep Hcut) as Hlt.
        destruct n' as [|n']; [lia |].
        change (SplitN s sep (S (S n'))) with
          (match Cut s sep with
           | Some (before, after) => before :: SplitN after sep (S n')
           | None => [s]
           end).
        rewrite Hcut. f_equal. apply IH; lia.
      + destruct n' as [|n']; [reflexivity |].
        change (SplitN s sep (S (S n'))) with
          (match Cut s sep with
           | Some (before, after) => before :: SplitN after sep (S n')
           | None => [s]
           end).
        now rewrite Hcut. }
  intros Hn. now apply Hgen.
Qed.

(** [SplitN s sep 2] by whether the separator occurs. *)
Lemma SplitN_2_no_separator (s sep : string) :
  Contains s sep = false -> SplitN s sep 2 = [s].
Proof. intros Hc. apply Cut_None_Contains in Hc. simpl. now rewrite Hc. Qed.

Lemma SplitN_2_separator (s sep : string) :
  Contains s sep = true ->
  exists header body, SplitN s sep 2 = [header; body] /\ s = header +:+ sep +:+ body.
Proof.
  intros Hc. destruct (SplitN_2 s sep) as [Hsplit | Hsplit]; [exact Hsplit |].
  simpl in Hsplit. destruct (Cut s sep) as [[b a]|] eqn:Hcut; [easy |].
  apply Cut_None_Contains in Hcut. congruence.
Qed.

End StringFacts.

(** ** [normalizeLineEndings] *)

Section Normalize.

Lemma Cut_lf_Some (s before after : string) :
  Cut s lf = Some (before, after) ->
  expand_LF s = before +:+ crlf +:+ expand_LF after
  /\ String.length after < String.length s.
Proof.
  revert before. induction s as [|c s IH]; intros before; simpl; [easy |].
  destruct (Ascii.eqb_spec c LF) as [->|Hc].
  - intros [= <- <-]. simpl. split; [reflexivity | lia].
  - destruct (Cut s lf) as [[b a]|] eqn:Hcut; [|easy].
    intros [= <- <-]. destruct (IH b eq_refl) as [-> Hlen].
    split; [reflexivity | lia].
Qed.

Lemma Cut_lf_None (s : string) : Cut s lf = None -> expand_LF s = s.
Proof.
  induction s as [|c s IH]; simpl; [easy |].
  destruct (Ascii.eqb_spec c LF) as [->|Hc]; [easy |].
  destruct (Cut s lf) as [[b a]|] eqn:Hcut; [easy |].
  intros _. now rewrite IH.
Qed.

Lemma Replace_loop_lf (n : nat) (s : string) :
  String.length s <= n -> Replace_loop n s lf crlf = expand_LF s.
Proof.
  revert s. induction n as [|n IH]; intros s Hn.
  - destruct s; [reflexivity | simpl in Hn; lia].
  - simpl. destruct (Cut s lf) as [[b a]|] eqn:Hcut.
    + destruct (Cut_lf_Some _ _ _ Hcut) as [-> Hlen].
      rewrite IH by lia. reflexivity.
    + symmetry. now apply Cut_lf_None.
Qed.

Lemma normalizeLineEndings_expand (input : string) :
  normalizeLineEndings input = expand_LF input.
Proof. unfold normalizeLineEndings, ReplaceAll. simpl. now apply Replace_loop_lf. Qed.

Lemma expand_LF_no_bare_LF (prev : ascii) (s : string) :
  bare_LF_after prev (expand_LF s) = false.
Proof.
  revert prev. induction s as [|c s IH]; intros prev; [reflexivity |].
  simpl. destruct (Ascii.eqb_spec c LF) as [->|Hc]; simpl.
  - now rewrite IH.
  - rewrite IH. destruct (Ascii.eqb_spec c LF); [easy | reflexivity].
Qed.

(** What does hold of every input: in the result each LF follows a CR. *)
Lemma normalizeLineEndings_no_bare_LF (input : string) :
  has_bare_LF (normalizeLineEndings input) = false.
Proof. rewrite normalizeLineEndings_expand. apply expand_LF_no_bare_LF. Qed.

(** C2, at the input ["a\r\nb"]: the CR LF that is already there becomes
    CR CR LF, whose first CR no LF follows.  The claim promises that every
    line break of the result is exactly CR LF; this evaluation shows the
    result of [normalizeLineEndings] at an input on which it is not. *)
Theorem normalizeLineEndings_doubles_CR :
  normalizeLineEndings ("a" +:+ crlf +:+ "b") = "a" +:+ String CR crlf +:+ "b"
  /\ Contains (normalizeLineEndings ("a" +:+ crlf +:+ "b")) (String CR crlf) = true
  /\ has_bare_CR (normalizeLineEndings ("a" +:+ crlf +:+ "b")) = true.
Proof. repeat split. Qed.

End Normalize.

(** ** [encoding/hex] *)

Section HexFacts.

Lemma length_EncodeToString (src : list byte) :
  String.length (EncodeToString src) = 2 * length src.
Proof. induction src as [|v src IH]; simpl; [reflexivity | rewrite IH; lia]. Qed.

(** The two digits of a byte decode to it. *)
Lemma hex_digits_of_byte (v : byte) :
  let p := byte_at hextable (N.to_nat (N.shiftr (Byte.to_N v) 4)) in
  let q := byte_at hextable (N.to_nat (N.land (Byte.to_N v) 15)) in
  (15 <? reverseHexTable p)%N = false
  /\ (15 <? reverseHexTable q)%N = false
  /\ byte_of_N (N.lor (N.shiftl (reverseHexTable p) 4) (reverseHexTable q)) = v
  /\ is_lower_hex p = true /\ is_lower_hex q = true.
Proof. destruct v; vm_compute; auto. Qed.

Lemma DecodeString_EncodeToString (src : list byte) :
  DecodeString (EncodeToString src) = Some src.
Proof.
  induction src as [|v src IH]; [reflexivity |].
  destruct (hex_digits_of_byte v) as (Hp & Hq & Hv & _).
  cbn [EncodeToString DecodeString]. cbv zeta in Hp, Hq, Hv.
  now rewrite Hp, Hq, IH, Hv.
Qed.

Lemma EncodeToString_inj (a b : list byte) :
  EncodeToString a = EncodeToString b -> a = b.
Proof.
  intros Heq. apply (f_equal DecodeString) in Heq.
  rewrite !DecodeString_EncodeToString in Heq. congruence.
Qed.

Lemma EncodeToString_lower_hex (src : list byte) :
  forallb is_lower_hex (list_ascii_of_string (EncodeToString src)) = true.
Proof.
  induction src as [|v src IH]; [reflexivity |].
  destruct (hex_digits_of_byte v) as (_ & _ & _ & Hp & Hq).
  cbn [EncodeToString list_ascii_of_string forallb]. cbv zeta in Hp, Hq.
  now rewrite Hp, Hq, IH.
Qed.

(** Induction on a string two bytes at a time, as [hex.Decode] reads it. *)
Lemma string_pair_ind (P : string -> Prop) :
  P EmptyString ->
  (forall p, P (String p EmptyString)) ->
  (forall p q rest, P rest -> P (String p (String q rest))) ->
  forall s, P s.
Proof.
  intros H0 H1 H2.
  fix IH 1. intros [|p [|q rest]]; [exact H0 | apply H1 | apply H2, IH].
Qed.

Lemma DecodeString_length (s : string) (dst : list byte) :
  DecodeString s = Some dst -> String.length s = 2 * length dst.
Proof.
  revert dst. induction s as [| p | p q rest IH] using string_pair_ind;
    intros dst; cbn [DecodeString].
  - now intros [= <-].
  - easy.
  - destruct (15 <? reverseHexTable p)%N; [easy |].
    destruct (15 <? reverseHexTable q)%N; [easy |].
    destruct (DecodeString rest) as [d|]; [|easy].
    intros [= <-]. simpl. rewrite (IH d eq_refl). lia.
Qed.

Lemma reverseHexTable_is_hex (c : ascii) :
  (15 <? reverseHexTable c)%N = negb (is_hex_digit c).
Proof. destruct c as [[] [] [] [] [] [] [] []]; reflexivity. Qed.

(** A string that decodes is made of hex digits. *)
Lemma DecodeString_all_hex (s : string) (dst : list byte) :
  DecodeString s = Some dst ->
  forallb is_hex_digit (list_ascii_of_string s) = true.
Proof.
  revert dst. induction s as [| p | p q rest IH] using string_pair_ind;
    intros dst; cbn [DecodeString list_ascii_of_string forallb].
  - reflexivity.
  - easy.
  - rewrite !reverseHexTable_is_hex.
    destruct (is_hex_digit p); [|easy]. destruct (is_hex_digit q); [|easy].
    destruct (DecodeString rest) as [d|]; [|easy].
    intros _. now rewrite (IH d).
Qed.

Lemma reverseHexTable_upper (c : ascii) :
  reverseHexTable (hex_upper_digit c) = reverseHexTable c.
Proof. destruct c as [[] [] [] [] [] [] [] []]; reflexivity. Qed.

(** Decoding does not see the case of the digits. *)
Lemma DecodeString_hex_upper (s : string) :
  DecodeString (hex_upper s) = DecodeString s.
Proof.
  induction s as [| p | p q rest IH] using string_pair_ind;
    cbn [hex_upper DecodeString]; [reflexivity | reflexivity |].
  now rewrite !reverseHexTable_upper, IH.
Qed.

Lemma length_hex_upper (s : string) :
  String.length (hex_upper s) = String.length s.
Proof. induction s as [|c s IH]; simpl; [reflexivity | now rewrite IH]. Qed.

End HexFacts.

(** ** The esub token *)

Section EsubFacts.
Context {crypto : Crypto}.

Lemma length_deriveKey (e : esub) : length (deriveKey e) = 32.
Proof. unfold deriveKey. now rewrite argon2_IDKey_length. Qed.

Lemma length_textHash_12 :
  length (take 12 (sha3_Sum256 (list_byte_of_string "text"))) = 12.
Proof. rewrite length_take, sha3_Sum256_length. reflexivity. Qed.

Lemma length_expected_ciphertext (key nonce : list byte) :
  length (expected_ciphertext key nonce) = 12.
Proof. unfold expected_ciphertext. now rewrite length_imap, length_textHash_12. Qed.

(** The stream cipher call of [esubtest] and [esubgen] never panics: the
    destination has the 12 bytes of the source. *)
Lemma XORKeyStream_textHash (key nonce : list byte) :
  XORKeyStream {| cipher_key := key; cipher_nonce := nonce |} (replicate 12 x00)
    (take 12 (sha3_Sum256 (list_byte_of_string "text")))
  = Return (expected_ciphertext key nonce).
Proof.
  unfold XORKeyStream. rewrite length_textHash_12. simpl.
  unfold expected_ciphertext. now rewrite app_nil_r.
Qed.

Lemma NewUnauthenticatedCipher_12 (key nonce : list byte) :
  length key = 32 -> length nonce = 12 ->
  NewUnauthenticatedCipher key nonce = Some {| cipher_key := key; cipher_nonce := nonce |}.
Proof. intros Hk Hn. unfold NewUnauthenticatedCipher. now rewrite Hk, Hn. Qed.

(** [esubtest] on a token of 48 characters that decodes. *)
Lemma esubtest_decoded (e : esub) (esubBytes : list byte) :
  String.length (subject e) = 48 ->
  DecodeString (subject e) = Some esubBytes ->
  length esubBytes = 24
  /\ esubtest e =
     Return (bool_decide (expected_ciphertext (deriveKey e) (take 12 esubBytes)
                          = List.skipn 12 esubBytes)).
Proof.
  intros Hlen Hdec.
  assert (Hb : length esubBytes = 24).
  { apply DecodeString_length in Hdec. lia. }
  split; [exact Hb |].
  unfold esubtest. rewrite Hlen, Hdec, Hb. simpl negb. cbv iota.
  rewrite NewUnauthenticatedCipher_12;
    [| apply length_deriveKey | rewrite length_take; lia].
  rewrite XORKeyStream_textHash. simpl.
  f_equal. case_bool_decide as Heq.
  - rewrite Heq. apply String.eqb_refl.
  - apply String.eqb_neq. intros Henc. now apply EncodeToString_inj in Henc.
Qed.

(** [esubtest] returns, whatever the token is. *)
Lemma esubtest_total (e : esub) : exists b, esubtest e = Return b.
Proof.
  destruct (Nat.eq_dec (String.length (subject e)) 48) as [Hlen|Hlen].
  - destruct (DecodeString (subject e)) as [esubBytes|] eqn:Hdec.
    + destruct (esubtest_decoded e esubBytes Hlen Hdec) as [_ ->]. eauto.
    + unfold esubtest. rewrite Hlen, Hdec. eauto.
  - unfold esubtest. apply Nat.eqb_neq in Hlen. rewrite Hlen. eauto.
Qed.

(** C3: for every key and every 12-byte nonce, [esubgen] returns a token,
    the token is the lower-case hex of the nonce followed by a 12-byte
    cipher text, it has exactly 48 characters, all of them hex digits, and
    [esubtest] with the same key accepts it. *)
Theorem esubgen_esubtest_roundtrip (k s : string) (nonce : list byte) :
  length nonce = 12 ->
  exists token ciphertext,
    esubgen {| key := k; subject := s |} nonce = Return token
    /\ token = EncodeToString (nonce ++ ciphertext)
    /\ length ciphertext = 12
    /\ String.length token = 48
    /\ forallb is_lower_hex (list_ascii_of_string token) = true
    /\ esubtest {| key := k; subject := token |} = Return true.
Proof.
  intros Hn.
  set (ct := expected_ciphertext (deriveKey {| key := k; subject := s |}) nonce).
  assert (Hct : length ct = 12) by apply length_expected_ciphertext.
  exists (EncodeToString (nonce ++ ct)), ct.
  assert (Hlen : String.length (EncodeToString (nonce ++ ct)) = 48).
  { rewrite length_EncodeToString, length_app, Hn, Hct. reflexivity. }
  repeat split; try assumption.
  - unfold esubgen.
    rewrite NewUnauthenticatedCipher_12; [| apply length_deriveKey | exact Hn].
    now rewrite XORKeyStream_textHash.
  - apply EncodeToString_lower_hex.
  - destruct (esubtest_decoded
                {| key := k; subject := EncodeToString (nonce ++ ct) |}
                (nonce ++ ct) Hlen (DecodeString_EncodeToString _)) as [_ ->].
    f_equal. apply bool_decide_eq_true.
    rewrite take_app_length' by (symmetry; exact Hn).
    change (List.skipn 12 (nonce ++ ct)) with (drop 12 (nonce ++ ct)).
    rewrite drop_app_length' by (symmetry; exact Hn).
    reflexivity.
Qed.

(** C6: a token that does not have exactly 48 characters, that holds a
    character that is no hex digit, or that does not decode, is answered
    with [false]; [esubtest] returns on every token, without a panic; and it
    answers [true] exactly when the token has 48 characters and decodes to a
    12-byte nonce followed by the 12 bytes of the cipher text recomputed for
    that nonce. *)
Theorem esubtest_rejects_malformed (e : esub) :
  (String.length (subject e) <> 48
   \/ forallb is_hex_digit (list_ascii_of_string (subject e)) = false
   \/ DecodeString (subject e) = None ->
   esubtest e = Return false)
  /\ (exists b, esubtest e = Return b)
  /\ (esubtest e = Return true <->
      String.length (subject e) = 48
      /\ exists nonce received,
           DecodeString (subject e) = Some (nonce ++ received)
           /\ length nonce = 12 /\ length received = 12
           /\ expected_ciphertext (deriveKey e) nonce = received).
Proof.
  split; [|split; [apply esubtest_total |]].
  - intros Hbad.
    destruct (Nat.eq_dec (String.length (subject e)) 48) as [Hlen|Hlen].
    + destruct (DecodeString (subject e)) as [esubBytes|] eqn:Hdec.
      * apply DecodeString_all_hex in Hdec.
        destruct Hbad as [Hbad|[Hbad|Hbad]]; [easy | congruence | easy].
      * unfold esubtest. now rewrite Hlen, Hdec.
    + unfold esubtest. apply Nat.eqb_neq in Hlen. now rewrite Hlen.
  - split.
    + intros Htrue.
      destruct (Nat.eq_dec (String.length (subject e)) 48) as [Hlen|Hlen].
      2:{ unfold esubtest in Htrue. apply Nat.eqb_neq in Hlen.
          now rewrite Hlen in Htrue. }
      split; [exact Hlen |].
      destruct (DecodeString (subject e)) as [esubBytes|] eqn:Hdec.
      2:{ unfold esubtest in Htrue. now rewrite Hlen, Hdec in Htrue. }
      destruct (esubtest_decoded e esubBytes Hlen Hdec) as [Hb Heq].
      rewrite Heq in Htrue. injection Htrue as Htrue.
      apply bool_decide_eq_true in Htrue.
      exists (take 12 esubBytes), (List.skipn 12 esubBytes).
      rewrite length_take, length_skipn, Hb.
      repeat split; try reflexivity; [| exact Htrue].
      f_equal. symmetry. apply take_drop.
    + intros (Hlen & nonce & received & Hdec & Hn & Hr & Heq).
      destruct (esubtest_decoded e _ Hlen Hdec) as [_ ->].
      f_equal. apply bool_decide_eq_true.
      rewrite take_app_length' by (symmetry; exact Hn).
      change (List.skipn 12 (nonce ++ received)) with (drop 12 (nonce ++ received)).
      rewrite drop_app_length' by (symmetry; exact Hn).
      exact Heq.
Qed.

(** The case of the hex digits of the token does not reach the comparison:
    the length is that of the string and both cases decode to the same
    bytes. *)
Lemma esubtest_hex_upper (e : esub) :
  esubtest {| key := key e; subject := hex_upper (subject e) |} = esubtest e.
Proof.
  unfold esubtest, deriveKey. cbn [subject key].
  now rewrite length_hex_upper, DecodeString_hex_upper.
Qed.

(** C10: when [esubtest] accepts a token of 48 characters, it also accepts
    the token with its hex digits in upper case, for the same key. *)
Theorem esubtest_hex_case_invariant (e : esub) :
  String.length (subject e) = 48 ->
  esubtest e = Return true ->
  esubtest {| key := key e; subject := hex_upper (subject e) |} = Return true.
Proof. intros _ Htrue. now rewrite esubtest_hex_upper. Qed.

End EsubFacts.

Lemma esubgen_esubtest_roundtrip_witness :
  exists token ciphertext,
    esubgen (crypto := toy_crypto) {| key := "passphrase"; subject := "" |} (replicate 12 xab)
      = Return token
    /\ token = EncodeToString (replicate 12 xab ++ ciphertext)
    /\ length ciphertext = 12
    /\ String.length token = 48
    /\ forallb is_lower_hex (list_ascii_of_string token) = true
    /\ esubtest (crypto := toy_crypto) {| key := "passphrase"; subject := token |} = Return true.
Proof.
  apply (esubgen_esubtest_roundtrip (crypto := toy_crypto)). reflexivity.
Defined.


(** ** [generateMessageID] *)

Section MessageID.

Lemma rand_Int_lt (tape : entropy) (max : N) (cur : nat) :
  (0 < max)%N -> (fst (rand_Int tape max cur) < max)%N.
Proof. intros Hmax. simpl. apply N.mod_lt. lia. Qed.








End MessageID.

(** ** [extractEmailFromHeaders] *)

Section Needle.
Variable c : ascii.

Lemma Contains_cons (d : ascii) (s : string) :
  Contains (String d s) (String c EmptyString) = Ascii.eqb d c || Contains s (String c EmptyString).
Proof.
  unfold Contains. simpl. destruct (Ascii.eqb d c); [reflexivity |].
  pose proof (Index_ge s (String c EmptyString)).
  destruct (Index s (String c EmptyString) <? 0)%Z eqn:E; simpl.
  - symmetry. apply Z.leb_gt. lia.
  - transitivity true; [apply Z.leb_le; lia | symmetry; apply Z.leb_le; lia].
Qed.

Lemma Contains_app (a b : string) :
  Contains (a +:+ b) (String c EmptyString) = Contains a (String c EmptyString) || Contains b (String c EmptyString).
Proof.
  induction a as [|d a IH]; [reflexivity |].
  simpl. rewrite !Contains_cons, IH. now rewrite orb_assoc.
Qed.

Lemma LastIndex_absent (s : string) :
  Contains s (String c EmptyString) = false -> LastIndex s (String c EmptyString) = (-1)%Z.
Proof.
  induction s as [|d s IH]; [reflexivity |].
  rewrite Contains_cons. intros [Hd Hs]%orb_false_elim.
  simpl. rewrite (IH Hs), Hd. reflexivity.
Qed.

(** The last occurrence of a byte is the one that no other follows. *)
Lemma LastIndex_last (a r : string) :
  Contains r (String c EmptyString) = false ->
  LastIndex (a +:+ String c r) (String c EmptyString) = Z.of_nat (String.length a).
Proof.
  intros Hr. induction a as [|d a IH].
  - simpl. rewrite (LastIndex_absent r Hr), Ascii.eqb_refl. reflexivity.
  - change (LastIndex (String d a +:+ String c r) (String c EmptyString))
      with (let i := LastIndex (a +:+ String c r) (String c EmptyString) in
            if (0 <=? i)%Z then (i + 1)%Z
            else if HasPrefix (String d (a +:+ String c r)) (String c EmptyString) then 0%Z else (-1)%Z).
    rewrite IH. cbv zeta.
    destruct (0 <=? Z.of_nat (String.length a))%Z eqn:E; [simpl; lia |].
    apply Z.leb_gt in E. lia.
Qed.

Lemma LastIndex_range (s : string) :
  (-1 <= LastIndex s (String c EmptyString) < Z.of_nat (String.length s))%Z
  \/ (s = EmptyString /\ LastIndex s (String c EmptyString) = (-1)%Z).
Proof.
  induction s as [|d s IH]; [now right |]. left.
  cbn [LastIndex String.length].
  destruct (0 <=? LastIndex s (String c EmptyString))%Z eqn:E.
  - apply Z.leb_le in E. destruct IH as [IH | [-> IH]]; [lia |].
    rewrite IH in E. lia.
  - simpl. destruct (Ascii.eqb d c); lia.
Qed.

Lemma Contains_LastIndex (s : string) :
  Contains s (String c EmptyString) = true -> (0 <= LastIndex s (String c EmptyString))%Z.
Proof.
  induction s as [|d s IH]; [easy |].
  rewrite Contains_cons. cbn [LastIndex].
  destruct (0 <=? LastIndex s (String c EmptyString))%Z eqn:E.
  - apply Z.leb_le in E. lia.
  - simpl. destruct (Ascii.eqb d c); simpl; [lia |].
    intros Hs. apply IH in Hs. apply Z.leb_gt in E. lia.
Qed.

End Needle.

Section Substring.

Lemma substring_skip (a r : string) (n : nat) :
  substring (String.length a) n (a +:+ r) = substring 0 n r.
Proof. induction a as [|d a IH]; [reflexivity | exact IH]. Qed.

Lemma substring_prefix (x y : string) :
  substring 0 (String.length x) (x +:+ y) = x.
Proof.
  induction x as [|d x IH]; simpl.
  - now destruct y.
  - now rewrite IH.
Qed.

(** Between the last [<] and the last [>], brackets kept. *)
Lemma slice_brackets (a b c : string) :
  Contains b "<" = false -> Contains c "<" = false -> Contains c ">" = false ->
  let value := a +:+ "<" +:+ b +:+ ">" +:+ c in
  slice value (LastIndex value "<") (LastIndex value ">" + 1)
  = Return ("<" +:+ b +:+ ">").
Proof.
  intros Hb Hc1 Hc2 value.
  assert (H1 : LastIndex value "<" = Z.of_nat (String.length a)).
  { unfold value. apply (LastIndex_last "<"%char a (b +:+ ">" +:+ c)).
    rewrite Contains_app, Hb. simpl. rewrite (Contains_cons "<"%char). now rewrite Hc1. }
  assert (H2 : LastIndex value ">"
               = Z.of_nat (String.length a + 1 + String.length b)).
  { unfold value.
    replace (a +:+ "<" +:+ b +:+ ">" +:+ c) with ((a +:+ "<" +:+ b) +:+ String ">" c)
      by now rewrite !append_assoc.
    rewrite (LastIndex_last ">"%char _ c Hc2), !length_append. simpl. f_equal. lia. }
  unfold slice. rewrite H1, H2.
  assert (Hlen : String.length value
                 = String.length a + (1 + (String.length b + (1 + String.length c)))).
  { unfold value. now rewrite !length_append. }
  rewrite Hlen.
  replace ((0 <=? Z.of_nat (String.length a))%Z) with true by (symmetry; apply Z.leb_le; lia).
  replace ((Z.of_nat (String.length a)
            <=? Z.of_nat (String.length a + 1 + String.length b) + 1)%Z) with true
    by (symmetry; apply Z.leb_le; lia).
  replace ((Z.of_nat (String.length a + 1 + String.length b) + 1
            <=? Z.of_nat (String.length a + (1 + (String.length b + (1 + String.length c)))))%Z)
    with true by (symmetry; apply Z.leb_le; lia).
  simpl andb. cbv iota. f_equal.
  rewrite Nat2Z.id.
  replace (Z.to_nat (Z.of_nat (String.length a + 1 + String.length b) + 1
                     - Z.of_nat (String.length a)))
    with (String.length ("<" +:+ b +:+ ">")) by (rewrite !length_append; simpl; lia).
  unfold value. rewrite substring_skip.
  replace ("<" +:+ b +:+ ">" +:+ c) with (("<" +:+ b +:+ ">") +:+ c)
    by now rewrite !append_assoc.
  apply substring_prefix.
Qed.

End Substring.

Section Extract.
Context {unicode : GoUnicode}.

(** The results of [extractEmailFromHeaders] on a map that is keyed by
    lower-case names, as [parseHeaders] builds it, when it returns: when
    the lower-cased key is absent the result is the empty
    string; when its value has both brackets and the last [<] comes before
    the last [>], the result is the part of the value from the one to the
    other, brackets kept, that is [<b>] for a value [a<b>c] with no [<] in [b]
    or [c] and no [>] in [c]; when its value lacks [<] or [>] the result is
    the value.  On ["Name <a@b.com>"] the result is ["<a@b.com>"] and on
    ["a@b.com"] it is ["a@b.com"]. *)
Theorem extractEmailFromHeaders_cases (headers : gmap string string) (headerKey : string) :
  (headers !! ToLower headerKey = None ->
   extractEmailFromHeaders headers headerKey = Return EmptyString)
  /\ (forall value,
        headers !! ToLower headerKey = Some value ->
        Contains value "<" && Contains value ">" = true ->
        (LastIndex value "<" < LastIndex value ">")%Z ->
        extractEmailFromHeaders headers headerKey
        = Return (substring (Z.to_nat (LastIndex value "<"))
                            (Z.to_nat (LastIndex value ">" - LastIndex value "<" + 1))
                            value))
  /\ (forall a b c,
        headers !! ToLower headerKey = Some (a +:+ "<" +:+ b +:+ ">" +:+ c) ->
        Contains b "<" = false -> Contains c "<" = false -> Contains c ">" = false ->
        extractEmailFromHeaders headers headerKey = Return ("<" +:+ b +:+ ">"))
  /\ (forall value,
        headers !! ToLower headerKey = Some value ->
        Contains value "<" && Contains value ">" = false ->
        extractEmailFromHeaders headers headerKey = Return value)
  /\ (headers !! ToLower headerKey = Some "Name <a@b.com>" ->
      extractEmailFromHeaders headers headerKey = Return "<a@b.com>")
  /\ (headers !! ToLower headerKey = Some "a@b.com" ->
      extractEmailFromHeaders headers headerKey = Return "a@b.com").
Proof.
  unfold extractEmailFromHeaders. repeat split.
  - now intros ->.
  - intros value -> Hboth Hlt. rewrite Hboth.
    apply andb_prop in Hboth as [Hl _].
    apply (Contains_LastIndex "<"%char) in Hl.
    unfold slice.
    destruct (LastIndex_range ">"%char value) as [Hr | [-> Hr]]; [| rewrite Hr in Hlt; lia].
    replace (0 <=? LastIndex value "<")%Z with true by (symmetry; apply Z.leb_le; lia).
    replace (LastIndex value "<" <=? LastIndex value ">" + 1)%Z with true
      by (symmetry; apply Z.leb_le; lia).
    replace (LastIndex value ">" + 1 <=? Z.of_nat (String.length value))%Z with true
      by (symmetry; apply Z.leb_le; lia).
    simpl. do 3 f_equal. lia.
  - intros a b c -> Hb Hc1 Hc2.
    assert (Hlt : Contains (a +:+ "<" +:+ b +:+ ">" +:+ c) "<" = true).
    { rewrite Contains_app. simpl. rewrite (Contains_cons "<"%char).
      rewrite Ascii.eqb_refl. now rewrite orb_true_r. }
    assert (Hgt : Contains (a +:+ "<" +:+ b +:+ ">" +:+ c) ">" = true).
    { replace (a +:+ "<" +:+ b +:+ ">" +:+ c) with ((a +:+ "<" +:+ b) +:+ String ">" c)
        by now rewrite !append_assoc.
      rewrite Contains_app, (Contains_cons ">"%char), Ascii.eqb_refl.
      now rewrite orb_true_r. }
    rewrite Hlt, Hgt. simpl andb. cbv iota.
    now apply slice_brackets.
  - now intros value -> ->.
  - now intros ->.
  - now intros ->.
Qed.

End Extract.

(** ** [sendEmail] *)

Section SendEmailFacts.
Context {unicode : GoUnicode}.

Lemma written_stage (call : list event) (err : option string)
    (status dialog : string) (deferred next : list event) :
  written call = None -> written deferred = None ->
  written (stage call err status dialog deferred next)
  = match err with Some _ => None | None => written next end.
Proof.
  intros Hcall Hdef. unfold stage.
  induction call as [|e call IH]; simpl.
  - destruct err; simpl; [exact Hdef | reflexivity].
  - destruct e; simpl in *; try easy; now apply IH.
Qed.

(** A stage that fails writes nothing; one that succeeds hands over to the
    next. *)
Ltac pass_stages :=
  repeat (rewrite written_stage by reflexivity;
          match goal with
          | |- context [match ?err with Some _ => None | None => _ end] =>
              destruct err; [discriminate |]
          end).

(** The only message that the transport writes is the one it is given. *)
Lemma written_transport (g : GUI) (n : network) (from to message m : string) :
  written (transport g n from to message) = Some m -> m = message.
Proof.
  unfold transport. pass_stages.
  destruct (negb (String.eqb (usernameEnt g) "") && negb (String.eqb (passwordEnt g) ""));
    pass_stages; simpl; congruence.
Qed.

(** The transport starts by reaching for the proxy. *)
Lemma transport_connects (g : GUI) (n : network) (from to message : string) :
  exists rest,
    transport g n from to message
    = SetStatus "Connecting to SOCKS proxy..."
      :: ProxySOCKS5 ("127.0.0.1:" +:+ socksPortEnt g) :: rest.
Proof. unfold transport, stage. simpl. eauto. Qed.

(** The two [sendEmail] as a case distinction on the extracted addresses. *)
Lemma Splice_sendEmail_cases (g : GUI) (w : world) :
  let rawContent := normalizeLineEndings (messageEnt g) in
  let headers := parseHeaders rawContent in
  forall from to,
    extractEmailFromHeaders headers "from" = Return from ->
    extractEmailFromHeaders headers "to" = Return to ->
    Splice.sendEmail g w =
    if isValidEmail from && isValidEmail to then
      Return (SetStatus "Starting SMTP session..."
              :: transport g (net w) from to
                   (spliced rawContent (messageIDHeader_of headers w) (dateHeader_of headers w)))
    else Return [ShowError "Invalid 'From' or 'To' address"].
Proof.
  intros rawContent headers from to Hfrom Hto.
  unfold Splice.sendEmail. fold rawContent. fold headers.
  rewrite Hfrom, Hto. simpl.
  now destruct (isValidEmail from), (isValidEmail to).
Qed.

Lemma Append_sendEmail_cases (g : GUI) (w : world) :
  let rawContent := normalizeLineEndings (messageEnt g) in
  let headers := parseHeaders rawContent in
  forall from to,
    extractEmailFromHeaders headers "from" = Return from ->
    extractEmailFromHeaders headers "to" = Return to ->
    Append.sendEmail g w =
    if isValidEmail from && isValidEmail to then
      Return (SetStatus "Starting SMTP session..."
              :: transport g (net w) from to
                   (appended rawContent (messageIDHeader_of headers w) (dateHeader_of headers w)))
    else Return [ShowError "Invalid 'From' or 'To' address"].
Proof.
  intros rawContent headers from to Hfrom Hto.
  unfold Append.sendEmail. fold rawContent. fold headers.
  rewrite Hfrom, Hto. simpl.
  now destruct (isValidEmail from), (isValidEmail to).
Qed.

(** When both extractions return and the address extracted from [From] or
    the one extracted from [To] has no [@] or no dot, each [sendEmail] shows
    the invalid-address error and does nothing else: no event of the
    transport, from the proxy on, is part of the run. *)
Theorem sendEmail_invalid_address_no_network (g : GUI) (w : world) (from to : string) :
  let headers := parseHeaders (normalizeLineEndings (messageEnt g)) in
  extractEmailFromHeaders headers "from" = Return from ->
  extractEmailFromHeaders headers "to" = Return to ->
  isValidEmail from = false \/ isValidEmail to = false ->
  Splice.sendEmail g w = Return [ShowError "Invalid 'From' or 'To' address"]
  /\ Append.sendEmail g w = Return [ShowError "Invalid 'From' or 'To' address"]
  /\ forall tr,
       Splice.sendEmail g w = Return tr \/ Append.sendEmail g w = Return tr ->
       existsb is_network tr = false.
Proof.
  intros headers Hfrom Hto Hbad.
  rewrite (Splice_sendEmail_cases g w from to Hfrom Hto).
  rewrite (Append_sendEmail_cases g w from to Hfrom Hto).
  assert (Hv : isValidEmail from && isValidEmail to = false).
  { destruct Hbad as [-> | ->]; [reflexivity | apply andb_false_r]. }
  rewrite Hv. repeat split.
  now intros tr [[= <-] | [= <-]].
Qed.

(** With two valid addresses the run does go to the network. *)
Lemma sendEmail_valid_address_connects (g : GUI) (w : world) (from to : string) :
  let headers := parseHeaders (normalizeLineEndings (messageEnt g)) in
  extractEmailFromHeaders headers "from" = Return from ->
  extractEmailFromHeaders headers "to" = Return to ->
  isValidEmail from = true -> isValidEmail to = true ->
  exists rest,
    Splice.sendEmail g w
    = Return (SetStatus "Starting SMTP session..."
              :: SetStatus "Connecting to SOCKS proxy..."
              :: ProxySOCKS5 ("127.0.0.1:" +:+ socksPortEnt g) :: rest).
Proof.
  intros headers Hfrom Hto Hf Ht.
  rewrite (Splice_sendEmail_cases g w from to Hfrom Hto), Hf, Ht. cbn [andb].
  match goal with |- context [transport ?a ?b ?c ?d ?m] =>
    destruct (transport_connects a b c d m) as [rest ->] end.
  eauto.
Qed.

(** One turn of the loop appends the header and, after a subject line,
    the made-up lines. *)
Lemma splice_step_app (messageIDHeader dateHeader : string)
    (newHeaders : list string) (header : string) :
  splice_step messageIDHeader dateHeader newHeaders header
  = newHeaders ++ header :: (if is_subject header
                             then synthesized messageIDHeader dateHeader else []).
Proof.
  unfold splice_step, synthesized, is_subject.
  destruct (HasPrefix (ToLower header) "subject:").
  - destruct (String.eqb messageIDHeader ""), (String.eqb dateHeader ""); simpl;
      rewrite <- ?app_assoc; reflexivity.
  - reflexivity.
Qed.

(** The loop of mmg.go:1454 in closed form. *)
Lemma fold_splice_step (messageIDHeader dateHeader : string)
    (headers newHeaders : list string) :
  fold_left (splice_step messageIDHeader dateHeader) headers newHeaders
  = newHeaders ++ with_synthesized messageIDHeader dateHeader headers.
Proof.
  revert newHeaders. induction headers as [|header headers IH]; intros newHeaders.
  - simpl. now rewrite app_nil_r.
  - cbn [fold_left]. rewrite IH, splice_step_app.
    unfold with_synthesized. cbn [flat_map]. now rewrite <- !app_assoc.
Qed.

Lemma length_with_synthesized (messageIDHeader dateHeader : string) (headers : list string) :
  length (with_synthesized messageIDHeader dateHeader headers)
  = length headers
    + length (filter (fun h => is_subject h = true) headers)
      * length (synthesized messageIDHeader dateHeader).
Proof.
  unfold with_synthesized. induction headers as [|h headers IH]; [reflexivity |].
  cbn [flat_map]. rewrite length_app, IH. rewrite filter_cons.
  destruct (is_subject h) eqn:Hs.
  - rewrite decide_True by reflexivity. simpl. lia.
  - rewrite decide_False by easy. simpl. lia.
Qed.

(** The message of mmg.go:1450-1469 when the text has a separator. *)
Lemma spliced_separator (rawContent header body messageIDHeader dateHeader : string) :
  SplitN rawContent (crlf +:+ crlf) 2 = [header; body] ->
  spliced rawContent messageIDHeader dateHeader
  = Join (with_synthesized messageIDHeader dateHeader (Split header crlf)) crlf
    +:+ crlf +:+ crlf +:+ body.
Proof.
  intros Hparts. unfold spliced. rewrite Hparts.
  now rewrite fold_splice_step.
Qed.

Lemma spliced_no_separator (rawContent messageIDHeader dateHeader : string) :
  SplitN rawContent (crlf +:+ crlf) 2 = [rawContent] ->
  spliced rawContent messageIDHeader dateHeader
  = rawContent +:+ crlf +:+ messageIDHeader +:+ dateHeader +:+ crlf.
Proof. intros Hparts. unfold spliced. now rewrite Hparts. Qed.

(** A run that is known to return did not stop in the panic of an
    extraction. *)
Ltac not_a_panic Hrun :=
  exfalso; unfold Splice.sendEmail, Append.sendEmail in Hrun; cbv zeta in Hrun;
  repeat match goal with
         | H : extractEmailFromHeaders _ _ = _ |- _ => rewrite H in Hrun; clear H
         end;
  discriminate Hrun.

(** What a run of the [sendEmail] of mmg.go:1418 writes is the spliced
    message. *)
Lemma Splice_sendEmail_written (g : GUI) (w : world) (tr : list event) (m : string) :
  let rawContent := normalizeLineEndings (messageEnt g) in
  let headers := parseHeaders rawContent in
  Splice.sendEmail g w = Return tr -> written tr = Some m ->
  m = spliced rawContent (messageIDHeader_of headers w) (dateHeader_of headers w).
Proof.
  intros rawContent headers Hrun Hw. subst rawContent headers.
  destruct (extractEmailFromHeaders (parseHeaders (normalizeLineEndings (messageEnt g))) "from")
    as [from|msg] eqn:Hfrom; [| not_a_panic Hrun].
  destruct (extractEmailFromHeaders (parseHeaders (normalizeLineEndings (messageEnt g))) "to")
    as [to|msg] eqn:Hto; [| not_a_panic Hrun].
  rewrite (Splice_sendEmail_cases g w from to Hfrom Hto) in Hrun.
  destruct (isValidEmail from && isValidEmail to); injection Hrun as <-; [| discriminate].
  simpl in Hw. now apply written_transport in Hw.
Qed.

(** What a run of the [sendEmail] of mmg.go:761 writes: the made-up lines
    at the end of the header part, wherever the subject line is. *)
Lemma Append_sendEmail_written (g : GUI) (w : world) (tr : list event) (m : string) :
  let rawContent := normalizeLineEndings (messageEnt g) in
  let headers := parseHeaders rawContent in
  Append.sendEmail g w = Return tr -> written tr = Some m ->
  m = appended rawContent (messageIDHeader_of headers w) (dateHeader_of headers w).
Proof.
  intros rawContent headers Hrun Hw. subst rawContent headers.
  destruct (extractEmailFromHeaders (parseHeaders (normalizeLineEndings (messageEnt g))) "from")
    as [from|msg] eqn:Hfrom; [| not_a_panic Hrun].
  destruct (extractEmailFromHeaders (parseHeaders (normalizeLineEndings (messageEnt g))) "to")
    as [to|msg] eqn:Hto; [| not_a_panic Hrun].
  rewrite (Append_sendEmail_cases g w from to Hfrom Hto) in Hrun.
  destruct (isValidEmail from && isValidEmail to); injection Hrun as <-; [| discriminate].
  simpl in Hw. now apply written_transport in Hw.
Qed.

Lemma appended_separator (rawContent header body messageIDHeader dateHeader : string) :
  SplitN rawContent (crlf +:+ crlf) 2 = [header; body] ->
  appended rawContent messageIDHeader dateHeader
  = header +:+ crlf +:+ messageIDHeader +:+ dateHeader +:+ crlf +:+ crlf +:+ body.
Proof. intros Hparts. unfold appended. now rewrite Hparts. Qed.

Lemma appended_no_separator (rawContent messageIDHeader dateHeader : string) :
  SplitN rawContent (crlf +:+ crlf) 2 = [rawContent] ->
  appended rawContent messageIDHeader dateHeader
  = rawContent +:+ crlf +:+ messageIDHeader +:+ dateHeader +:+ crlf.
Proof. intros Hparts. unfold appended. now rewrite Hparts. Qed.

(** C1, as the two [sendEmail] have it.  In the [sendEmail] of mmg.go:1418,
    when the normalised text has the blank-line separator and its header
    part has a line that begins with [subject:], the message written is the
    header lines in their order, each subject line followed at once by the
    made-up lines, then the separator and the body as it was; when the text
    has no separator, the made-up lines come after the whole text, wherever
    its subject line is.  In the [sendEmail] of mmg.go:761 the made-up lines
    come at the end of the header part, before the body, or after the whole
    text when there is no separator, wherever the subject line is. *)
Theorem sendEmail_splices_after_subject (g : GUI) (w : world) :
  let rawContent := normalizeLineEndings (messageEnt g) in
  let headers := parseHeaders rawContent in
  let messageIDHeader := messageIDHeader_of headers w in
  let dateHeader := dateHeader_of headers w in
  (forall tr m,
     Splice.sendEmail g w = Return tr -> written tr = Some m ->
     (forall header body,
        SplitN rawContent (crlf +:+ crlf) 2 = [header; body] ->
        existsb is_subject (Split header crlf) = true ->
        rawContent = Join (Split header crlf) crlf +:+ crlf +:+ crlf +:+ body
        /\ m = Join (flat_map (fun h => h :: (if is_subject h
                                             then synthesized messageIDHeader dateHeader
                                             else []))
                       (Split header crlf)) crlf
               +:+ crlf +:+ crlf +:+ body)
     /\ (Contains rawContent (crlf +:+ crlf) = false ->
         m = rawContent +:+ crlf +:+ messageIDHeader +:+ dateHeader +:+ crlf))
  /\ (forall tr m,
        Append.sendEmail g w = Return tr -> written tr = Some m ->
        (forall header body,
           SplitN rawContent (crlf +:+ crlf) 2 = [header; body] ->
           m = header +:+ crlf +:+ messageIDHeader +:+ dateHeader
               +:+ crlf +:+ crlf +:+ body)
        /\ (Contains rawContent (crlf +:+ crlf) = false ->
            m = rawContent +:+ crlf +:+ messageIDHeader +:+ dateHeader +:+ crlf)).
Proof.
  intros rawContent headers messageIDHeader dateHeader. split; intros tr m Hrun Hw.
  - pose proof (Splice_sendEmail_written g w tr m Hrun Hw) as ->.
    fold rawContent headers messageIDHeader dateHeader. split.
    + intros header body Hparts _. split.
      * rewrite Join_Split.
        destruct (SplitN_2 rawContent (crlf +:+ crlf)) as [(h & b & Hp & Heq) | Hp];
          rewrite Hp in Hparts; [| discriminate].
        injection Hparts as <- <-. rewrite Heq at 1. now rewrite !append_assoc.
      * now apply spliced_separator.
    + intros Hnone. now apply spliced_no_separator, SplitN_2_no_separator.
  - pose proof (Append_sendEmail_written g w tr m Hrun Hw) as ->.
    fold rawContent headers messageIDHeader dateHeader. split.
    + intros header body Hparts. now apply appended_separator.
    + intros Hnone. now apply appended_no_separator, SplitN_2_no_separator.
Qed.

(** C9, as the [sendEmail] of mmg.go:1418 has it.  For a text with the
    blank-line separator: when the header part has more than one line that
    begins with [subject:], the made-up lines are written after each of
    them, so that the header block grows by the made-up lines once per
    subject line.  For a text without the separator: the made-up lines are
    written once, after the whole text, however many subject lines it
    has. *)
Theorem sendEmail_splices_after_every_subject (g : GUI) (w : world) (tr : list event)
    (m : string) :
  let rawContent := normalizeLineEndings (messageEnt g) in
  let headers := parseHeaders rawContent in
  let messageIDHeader := messageIDHeader_of headers w in
  let dateHeader := dateHeader_of headers w in
  let synth := synthesized messageIDHeader dateHeader in
  Splice.sendEmail g w = Return tr ->
  written tr = Some m ->
  (forall header body,
     let subjects := filter (fun h => is_subject h = true) (Split header crlf) in
     SplitN rawContent (crlf +:+ crlf) 2 = [header; body] ->
     1 < length subjects ->
     exists newHeaders,
       m = Join newHeaders crlf +:+ crlf +:+ crlf +:+ body
       /\ newHeaders = flat_map (fun h => if is_subject h then h :: synth else [h])
                         (Split header crlf)
       /\ length newHeaders = length (Split header crlf) + length subjects * length synth)
  /\ (Contains rawContent (crlf +:+ crlf) = false ->
      m = rawContent +:+ crlf +:+ messageIDHeader +:+ dateHeader +:+ crlf).
Proof.
  intros rawContent headers messageIDHeader dateHeader synth Hrun Hw.
  pose proof (Splice_sendEmail_written g w tr m Hrun Hw) as ->.
  fold rawContent headers messageIDHeader dateHeader. split.
  - intros header body subjects Hparts _.
    exists (with_synthesized messageIDHeader dateHeader (Split header crlf)).
    split; [now apply spliced_separator |]. split.
    + unfold with_synthesized. apply flat_map_ext. intros h. fold synth.
      now destruct (is_subject h).
    + apply length_with_synthesized.
  - intros Hnone. now apply spliced_no_separator, SplitN_2_no_separator.
Qed.

End SendEmailFacts.

(** * Runs

    The statements above at concrete inputs: with the ASCII tables, the
    primitives [toy_crypto], the environment [world0] and the texts of the
    examples. *)

(** ** The esub token *)

Lemma esubtest_rejects_malformed_witness :
  esubtest (crypto := toy_crypto) {| key := "passphrase"; subject := "not a token" |}
  = Return false.
Proof.
  apply (proj1 (esubtest_rejects_malformed (crypto := toy_crypto)
                  {| key := "passphrase"; subject := "not a token" |})).
  left. simpl. lia.
Defined.

Lemma esubtest_hex_case_invariant_witness :
  esubtest (crypto := toy_crypto)
    {| key := "passphrase";
       subject := "ABABABABABABABABABABABAB000000000000000000000000" |}
  = Return true.
Proof.
  apply (esubtest_hex_case_invariant (crypto := toy_crypto)
           {| key := "passphrase";
              subject := "abababababababababababab000000000000000000000000" |});
    reflexivity.
Defined.

(** ** [extractEmailFromHeaders] *)

Lemma extractEmailFromHeaders_cases_witness :
  extractEmailFromHeaders (unicode := ascii_tables)
    {[ "from" := "Name <a@b.com>" ]} "From" = Return "<a@b.com>".
Proof.
  apply (proj1 (proj2 (proj2 (proj2 (proj2
    (extractEmailFromHeaders_cases (unicode := ascii_tables)
       {[ "from" := "Name <a@b.com>" ]} "From")))))).
  reflexivity.
Defined.

(** C5, at the value [">a@b.com<"]: the key is there and the value has both
    brackets, so that the result should be the part of the value from its
    last [<] to its last [>]; the last [<] is at index 8 and the last [>] at
    index 0, the slice is [value[8:1]], and there is no result: Go panics on
    it.  The message below gives this map through [parseHeaders]. *)
Theorem extractEmailFromHeaders_reversed_brackets :
  let text := "From: >a@b.com<" +:+ lf +:+ "To: b@y.com" +:+ lf +:+ lf +:+ "hi" in
  let headers := parseHeaders (unicode := ascii_tables) (normalizeLineEndings text) in
  headers !! "from" = Some ">a@b.com<"
  /\ Contains ">a@b.com<" "<" && Contains ">a@b.com<" ">" = true
  /\ LastIndex ">a@b.com<" "<" = 8%Z
  /\ LastIndex ">a@b.com<" ">" = 0%Z
  /\ extractEmailFromHeaders (unicode := ascii_tables) headers "from"
     = Panic "slice bounds out of range"
  /\ forall result,
       extractEmailFromHeaders (unicode := ascii_tables) headers "from" <> Return result.
Proof.
  repeat split; try (vm_compute; reflexivity).
  intros result. vm_compute. discriminate.
Qed.

(** C8, at the value ["a> b <"]: both brackets occur, the last [<] is at
    index 5 and the last [>] at index 1, the slice is [value[5:2]], and Go
    panics on it.  The message below reaches it through [parseHeaders], and
    both [sendEmail] stop in that panic. *)
Theorem extractEmailFromHeaders_panics :
  let text := "From: a> b <" +:+ lf +:+ "To: b@y.com" +:+ lf +:+ lf +:+ "hi" in
  parseHeaders (unicode := ascii_tables) (normalizeLineEndings text) !! "from"
    = Some "a> b <"
  /\ Contains "a> b <" "<" && Contains "a> b <" ">" = true
  /\ LastIndex "a> b <" "<" = 5%Z
  /\ LastIndex "a> b <" ">" = 1%Z
  /\ extractEmailFromHeaders (unicode := ascii_tables) {[ "from" := "a> b <" ]} "from"
     = Panic "slice bounds out of range"
  /\ Splice.sendEmail (unicode := ascii_tables) (compose text) world0
     = Panic "slice bounds out of range"
  /\ Append.sendEmail (unicode := ascii_tables) (compose text) world0
     = Panic "slice bounds out of range".
Proof. repeat split; vm_compute; reflexivity. Qed.

(** ** [sendEmail] *)

Lemma sendEmail_invalid_address_no_network_witness :
  let text := "From: a@x.com" +:+ lf +:+ "To: nobody" +:+ lf +:+ lf +:+ "hi" in
  Splice.sendEmail (unicode := ascii_tables) (compose text) world0
    = Return [ShowError "Invalid 'From' or 'To' address"]
  /\ Append.sendEmail (unicode := ascii_tables) (compose text) world0
    = Return [ShowError "Invalid 'From' or 'To' address"]
  /\ forall tr,
       Splice.sendEmail (unicode := ascii_tables) (compose text) world0 = Return tr
       \/ Append.sendEmail (unicode := ascii_tables) (compose text) world0 = Return tr ->
       existsb is_network tr = false.
Proof.
  apply (sendEmail_invalid_address_no_network (unicode := ascii_tables)
           (compose ("From: a@x.com" +:+ lf +:+ "To: nobody" +:+ lf +:+ lf +:+ "hi"))
           world0 "a@x.com" "nobody");
    [reflexivity | reflexivity | right; reflexivity].
Defined.

(** C4, at a message whose From address is not valid and whose To value has
    its brackets in the wrong order: the address extracted from [From] is
    [nobody], which has no [@], and yet neither [sendEmail] shows the
    invalid-address error: the extraction of the To address comes before the
    test (mmg.go:765 before mmg.go:766, mmg.go:1423 before mmg.go:1426) and
    the send stops in its panic. *)
Theorem sendEmail_invalid_address_panics :
  let text := "From: nobody" +:+ lf +:+ "To: a> b <" +:+ lf +:+ lf +:+ "hi" in
  let headers := parseHeaders (unicode := ascii_tables) (normalizeLineEndings text) in
  extractEmailFromHeaders (unicode := ascii_tables) headers "from" = Return "nobody"
  /\ isValidEmail "nobody" = false
  /\ extractEmailFromHeaders (unicode := ascii_tables) headers "to"
     = Panic "slice bounds out of range"
  /\ Splice.sendEmail (unicode := ascii_tables) (compose text) world0
     = Panic "slice bounds out of range"
  /\ Append.sendEmail (unicode := ascii_tables) (compose text) world0
     = Panic "slice bounds out of range"
  /\ Splice.sendEmail (unicode := ascii_tables) (compose text) world0
     <> Return [ShowError "Invalid 'From' or 'To' address"]
  /\ Append.sendEmail (unicode := ascii_tables) (compose text) world0
     <> Return [ShowError "Invalid 'From' or 'To' address"].
Proof. repeat split; try (vm_compute; reflexivity); vm_compute; discriminate. Qed.

(** The scenario of the specification: From, To and Subject, a blank line
    and a body.  The header block that is written has five lines, the
    made-up ones right after the subject line. *)
Lemma sendEmail_splices_after_subject_witness :
  message_of (Splice.sendEmail (unicode := ascii_tables) (compose scenario) world0)
  = Join ["From: a@x.com"; "To: b@y.com"; "Subject: hi"; messageID0; date0] crlf
    +:+ crlf +:+ crlf +:+ "body".
Proof.
  destruct (sendEmail_splices_after_subject (unicode := ascii_tables)
              (compose scenario) world0) as [Hsplice _].
  destruct (Hsplice
              (run_of (Splice.sendEmail (unicode := ascii_tables) (compose scenario) world0))
              (message_of (Splice.sendEmail (unicode := ascii_tables) (compose scenario) world0)))
    as [Hsep _]; [reflexivity | reflexivity |].
  edestruct Hsep as [_ Hm]; [vm_compute; reflexivity | vm_compute; reflexivity |].
  rewrite Hm. vm_compute. reflexivity.
Defined.

(** C1 as it is stated, for every message with a subject line.  In the
    first text the subject line comes first and there is no blank line: the
    [sendEmail] of mmg.go:1418 writes the made-up lines after the whole
    text, two lines below the subject line.  In the second text there is a
    body: the [sendEmail] of mmg.go:761, which never looks for the subject
    line, writes them at the end of the header part.  In neither message do
    the made-up lines follow the subject line. *)
Lemma sendEmail_synthesized_not_after_subject :
  let m1 := message_of (Splice.sendEmail (unicode := ascii_tables)
                          (compose subject_first_no_body) world0) in
  let m2 := message_of (Append.sendEmail (unicode := ascii_tables)
                          (compose subject_first) world0) in
  Split (normalizeLineEndings subject_first_no_body) crlf
    = ["Subject: hi"; "From: a@x.com"; "To: b@y.com"]
  /\ Contains (normalizeLineEndings subject_first_no_body) (crlf +:+ crlf) = false
  /\ Splice.sendEmail (unicode := ascii_tables) (compose subject_first_no_body) world0
     = Return (SetStatus "Starting SMTP session..."
               :: transport (compose subject_first_no_body) network_up "a@x.com" "b@y.com" m1)
  /\ Split m1 crlf
     = ["Subject: hi"; "From: a@x.com"; "To: b@y.com"; messageID0; date0; ""; ""]
  /\ Split m2 crlf
     = ["Subject: hi"; "From: a@x.com"; "To: b@y.com"; messageID0; date0; ""; ""; "body"]
  /\ ~ (exists before after,
          Split m1 crlf = before ++ ["Subject: hi"; messageID0; date0] ++ after)
  /\ ~ (exists before after,
          Split m2 crlf = before ++ ["Subject: hi"; messageID0; date0] ++ after).
Proof.
  repeat split; try (vm_compute; reflexivity);
    intros (before & after & Hlines); vm_compute in Hlines;
    repeat (destruct before as [|? before]; [discriminate Hlines | injection Hlines as _ Hlines]);
    destruct before; discriminate Hlines.
Qed.

(** The text without a subject line, with a body: the [sendEmail] of
    mmg.go:1418 computes the message with the made-up lines appended
    (mmg.go:1441-1448) and then overwrites it (mmg.go:1450-1469) with one
    that has none of them. *)
Example sendEmail_no_subject_drops_synthesized :
  appended (normalizeLineEndings no_subject) (messageID0 +:+ crlf) (date0 +:+ crlf)
  = Join ["From: a@x.com"; "To: b@y.com"; messageID0; date0; ""; ""; "body"] crlf
  /\ message_of (Splice.sendEmail (unicode := ascii_tables) (compose no_subject) world0)
     = Join ["From: a@x.com"; "To: b@y.com"; ""; "body"] crlf.
Proof. split; vm_compute; reflexivity. Qed.

Lemma sendEmail_splices_after_every_subject_witness :
  exists newHeaders,
    message_of (Splice.sendEmail (unicode := ascii_tables) (compose two_subjects) world0)
    = Join newHeaders crlf +:+ crlf +:+ crlf +:+ "body"
    /\ newHeaders = ["Subject: a"; messageID0; date0; "Subject: b"; messageID0; date0;
                     "From: a@x.com"; "To: b@y.com"]
    /\ length newHeaders = 4 + 2 * 2.
Proof.
  destruct (sendEmail_splices_after_every_subject (unicode := ascii_tables)
              (compose two_subjects) world0
              (run_of (Splice.sendEmail (unicode := ascii_tables) (compose two_subjects) world0))
              (message_of (Splice.sendEmail (unicode := ascii_tables) (compose two_subjects) world0)))
    as [Hsep _]; [reflexivity | reflexivity |].
  destruct (Hsep (Join ["Subject: a"; "Subject: b"; "From: a@x.com"; "To: b@y.com"] crlf)
              "body")
    as (newHeaders & Hm & Hnew & Hlen); [reflexivity | vm_compute; lia |].
  exists newHeaders. split; [exact Hm |]. split; [| exact Hlen].
  rewrite Hnew. vm_compute. reflexivity.
Defined.

(** C9 as it is stated, for every message with more than one subject line:
    this text has two and no blank line, and the [sendEmail] of mmg.go:1418
    writes the made-up lines once, after the whole text.  The [sendEmail] of
    mmg.go:761 writes them once for the text with a body too. *)
Lemma sendEmail_two_subjects_no_separator :
  let m1 := message_of (Splice.sendEmail (unicode := ascii_tables)
                          (compose two_subjects_no_body) world0) in
  let m2 := message_of (Append.sendEmail (unicode := ascii_tables)
                          (compose two_subjects) world0) in
  filter (fun h => is_subject (unicode := ascii_tables) h = true)
    (Split (normalizeLineEndings two_subjects_no_body) crlf)
    = ["Subject: a"; "Subject: b"]
  /\ Contains (normalizeLineEndings two_subjects_no_body) (crlf +:+ crlf) = false
  /\ Split m1 crlf
     = ["Subject: a"; "Subject: b"; "From: a@x.com"; "To: b@y.com"; messageID0; date0; "";
        ""]
  /\ Split m2 crlf
     = ["Subject: a"; "Subject: b"; "From: a@x.com"; "To: b@y.com"; messageID0; date0; "";
        ""; "body"]
  /\ length (filter (fun h => h = messageID0) (Split m1 crlf)) = 1
  /\ length (filter (fun h => h = date0) (Split m1 crlf)) = 1
  /\ length (filter (fun h => h = messageID0) (Split m2 crlf)) = 1.
Proof. repeat split; vm_compute; reflexivity. Qed.

(** ** [normalizeLineEndings] on a pasted text *)

(** The scenario with the line ends of a Windows clipboard: after
    [normalizeLineEndings] the text has no CR LF CR LF left, so that
    [sendEmail] finds no body in it. *)
Example normalizeLineEndings_loses_separator :
  let pasted := "From: a@x.com" +:+ crlf +:+ "To: b@y.com" +:+ crlf +:+ crlf +:+ "body" in
  Contains pasted (crlf +:+ crlf) = true
  /\ Contains (normalizeLineEndings pasted) (crlf +:+ crlf) = false.
Proof. split; reflexivity. Qed.

(** * More of the program

    The transport of [sendEmail], the header model, the line ends, the
    token scheme, the template editor, the MIME subject encoder and the
    status log, beyond the statements above. *)

(** ** Strings *)

Section MoreStringFacts.

Lemma HasPrefix_app_l (s t p : string) :
  HasPrefix s p = true -> HasPrefix (s +:+ t) p = true.
Proof.
  intros Hp. apply HasPrefix_split in Hp. rewrite Hp, append_assoc.
  apply HasPrefix_app.
Qed.

(** Whether a string begins with [p] is decided by its first [len(p)]
    bytes. *)
Lemma HasPrefix_app_long (x t t' p : string) :
  String.length p <= String.length x ->
  HasPrefix (x +:+ t) p = HasPrefix (x +:+ t') p.
Proof.
  revert x. induction p as [|c p IH]; intros x Hlen; [reflexivity |].
  destruct x as [|d x]; [simpl in Hlen; lia |].
  simpl. destruct (Ascii.eqb d c); [| reflexivity].
  apply IH. simpl in Hlen. lia.
Qed.

Lemma string_drop_app (p a : string) : string_drop (String.length p) (p +:+ a) = a.
Proof. induction p as [|c p IH]; [reflexivity | exact IH]. Qed.

Lemma Cut_here (sep a : string) : Cut (sep +:+ a) sep = Some (EmptyString, a).
Proof.
  pose proof (HasPrefix_app sep a) as Hp. pose proof (string_drop_app sep a) as Hd.
  destruct (sep +:+ a); simpl; rewrite Hp; now rewrite Hd.
Qed.

Lemma Cut_not_here (c : ascii) (s sep : string) :
  HasPrefix (String c s) sep = false ->
  Cut (String c s) sep
  = match Cut s sep with
    | Some (before, after) => Some (String c before, after)
    | None => None
    end.
Proof. intros Hp. simpl. now rewrite Hp. Qed.

(** What comes before the first occurrence holds no occurrence. *)
Lemma Cut_before (s sep before after : string) :
  sep <> EmptyString -> Cut s sep = Some (before, after) -> Cut before sep = None.
Proof.
  intros Hsep. revert before. induction s as [|c s IH]; intros before; simpl.
  - destruct (HasPrefix "" sep); [| easy]. intros [= <- _]. now destruct sep.
  - destruct (HasPrefix (String c s) sep) eqn:Hp.
    + intros [= <- _]. now destruct sep.
    + destruct (Cut s sep) as [[b a]|] eqn:Hcut; [| easy].
      intros [= <- <-]. simpl.
      destruct (HasPrefix (String c b) sep) eqn:Hp'.
      * apply Cut_Some in Hcut. subst s.
        apply (HasPrefix_app_l _ (sep +:+ a)) in Hp'. simpl in Hp'. congruence.
      * now rewrite (IH b eq_refl).
Qed.

(** The first occurrence does not depend on what follows it. *)
Lemma Cut_after (s sep before after after' : string) :
  Cut s sep = Some (before, after) ->
  Cut (before +:+ sep +:+ after') sep = Some (before, after').
Proof.
  revert before. induction s as [|c s IH]; intros before; simpl.
  - destruct (HasPrefix "" sep) eqn:Hp; [| easy]. intros [= <- <-]. exact (Cut_here sep after').
  - destruct (HasPrefix (String c s) sep) eqn:Hp.
    + intros [= <- <-]. exact (Cut_here sep after').
    + destruct (Cut s sep) as [[b a]|] eqn:Hcut; [| easy].
      intros [= <- <-].
      change (String c b +:+ sep +:+ after') with (String c (b +:+ sep +:+ after')).
      rewrite Cut_not_here; [now rewrite (IH b eq_refl) |].
      apply Cut_Some in Hcut. subst s. rewrite <- Hp.
      replace (String c (b +:+ sep +:+ after')) with (String c (b +:+ sep) +:+ after')
        by (simpl; now rewrite append_assoc).
      replace (String c (b +:+ sep +:+ a)) with (String c (b +:+ sep) +:+ a)
        by (simpl; now rewrite append_assoc).
      apply HasPrefix_app_long. simpl. rewrite length_append. lia.
Qed.

Lemma Contains_step (c : ascii) (s p : string) :
  Contains (String c s) p = HasPrefix (String c s) p || Contains s p.
Proof.
  unfold Contains. cbn [Index]. destruct (HasPrefix (String c s) p); [reflexivity |].
  pose proof (Index_ge s p). cbn [orb].
  destruct (Index s p <? 0)%Z eqn:E.
  - apply Z.ltb_lt in E. symmetry. apply Z.leb_gt. lia.
  - apply Z.ltb_ge in E. transitivity true; [apply Z.leb_le; lia | symmetry; apply Z.leb_le; lia].
Qed.

(** The first occurrence of a separator of two different bytes: it comes
    right after a piece that holds none. *)
Lemma Cut_first (x y : ascii) (p rest : string) :
  x <> y ->
  Contains p (String x (String y "")) = false ->
  Cut (p +:+ String x (String y "") +:+ rest) (String x (String y ""))
  = Some (p, rest).
Proof.
  intros Hxy. induction p as [|c p IH]; intros Hp.
  - exact (Cut_here (String x (String y "")) rest).
  - rewrite Contains_step in Hp. apply orb_false_elim in Hp as [Hhere Hp].
    change (String c p +:+ String x (String y "") +:+ rest)
      with (String c (p +:+ String x (String y "") +:+ rest)).
    rewrite Cut_not_here; [now rewrite (IH Hp) |].
    destruct p as [|d p].
    + simpl. destruct (Ascii.eqb c x); [| reflexivity].
      destruct (Ascii.eqb_spec x y); [contradiction | reflexivity].
    + exact Hhere.
Qed.

Lemma Split_single (s sep : string) : Contains s sep = false -> Split s sep = [s].
Proof.
  intros Hc. apply Cut_None_Contains in Hc. unfold Split.
  destruct (String.length s); [reflexivity |]. cbn [SplitN]. now rewrite Hc.
Qed.

Lemma length_concat_all_cons (w : string) (ws : list string) :
  String.length (concat_all (w :: ws)) = String.length w + String.length (concat_all ws).
Proof. cbn [concat_all]. apply length_append. Qed.

Lemma TrimSuffix_app (s suffix : string) : TrimSuffix (s +:+ suffix) suffix = s.
Proof.
  unfold TrimSuffix, HasSuffix. rewrite length_append.
  replace (String.length s + String.length suffix - String.length suffix)
    with (String.length s) by lia.
  rewrite string_drop_app, String.eqb_refl.
  replace (String.length suffix <=? String.length s + String.length suffix)%nat with true
    by (symmetry; apply Nat.leb_le; lia).
  cbn [andb]. apply substring_prefix.
Qed.

Lemma length_substring_0 (n : nat) (s : string) :
  n <= String.length s -> String.length (substring 0 n s) = n.
Proof.
  revert s. induction n as [|n IH]; intros s Hn.
  - now destruct s.
  - destruct s as [|c s]; [simpl in Hn; lia |]. simpl. rewrite IH; [reflexivity |].
    simpl in Hn. lia.
Qed.

End MoreStringFacts.

(** ** The transport *)

(** Case analysis on the answers of the network, in the order of the
    calls: once a call fails the later answers do not matter. *)
Tactic Notation "by_answers" constr(g) ident(n) tactic3(tac) :=
  unfold transport, stage, all_calls, answers, has_credentials;
  destruct n as [so di nc st au ma rc da wr];
  cbn [socks5_err dial_err newclient_err starttls_err auth_err mail_err rcpt_err
       data_err write_err];
  destruct (negb (String.eqb (usernameEnt g) "") && negb (String.eqb (passwordEnt g) ""));
  (destruct so; [tac |]; destruct di; [tac |]; destruct nc; [tac |]; destruct st; [tac |]);
  [destruct au; [tac |] |];
  (destruct ma; [tac |]; destruct rc; [tac |]; destruct da; [tac |]; destruct wr; tac).

Section TransportFacts.

Lemma transport_calls (g : GUI) (n : network) (from to message : string) :
  filter (fun e => is_call e = true) (transport g n from to message)
  = take (calls_made (answers g n)) (all_calls g from to message).
Proof. by_answers g n reflexivity. Qed.

(** X1: the transport stops at the first call that fails.  The calls it
    makes on the proxy and on the server are the calls of a whole send, in
    their order, up to the first one that the network answers with an
    error; none is made after it, none is skipped before it and none is
    repeated. *)
Theorem transport_fail_fast (g : GUI) (n : network) (from to message : string) :
  filter (fun e => is_call e = true) (transport g n from to message)
  = take (calls_made (answers g n)) (all_calls g from to message).
Proof. exact (transport_calls g n from to message). Qed.

(** X2: the transport reports once.  The status "Email sent successfully"
    is set exactly when every call succeeded, and then no error dialog is
    shown; otherwise exactly one error dialog is shown. *)
Theorem transport_reports_once (g : GUI) (n : network) (from to message : string) :
  existsb is_success (transport g n from to message) = forallb is_ok (answers g n)
  /\ length (filter (fun e => is_dialog e = true) (transport g n from to message))
     = (if forallb is_ok (answers g n) then 0 else 1).
Proof. split; by_answers g n reflexivity. Qed.

(** X3: nothing goes over a connection that is not encrypted.  When the
    credentials, an address of the envelope, the DATA command or the message
    is sent, the proxy, the dial, the SMTP greeting and STARTTLS have all
    succeeded. *)
Theorem transport_tls_first (g : GUI) (n : network) (from to message : string) :
  existsb is_after_tls (transport g n from to message) = true ->
  socks5_err n = None /\ dial_err n = None /\ newclient_err n = None
  /\ starttls_err n = None.
Proof.
  unfold transport, stage.
  destruct n as [[?|] [?|] [?|] [?|] au ma rc da wr];
    cbn [socks5_err dial_err newclient_err starttls_err]; try discriminate; auto.
Qed.

(** X4: what is opened is closed, in the reverse order, at the end of the
    run.  The connection is closed exactly when it was dialed, the client
    quits exactly when the server greeted it, and the data writer is closed
    exactly when DATA was accepted; these closing calls are the last events
    of the transport: writer, client, connection. *)
Theorem transport_closes (g : GUI) (n : network) (from to message : string) :
  let dialed := is_ok (socks5_err n) && is_ok (dial_err n) in
  let greeted := dialed && is_ok (newclient_err n) in
  let data_open := forallb is_ok (removelast (answers g n)) in
  let closes := ((if data_open then [WriterClose] else [])
                 ++ (if greeted then [ClientQuit] else [])
                 ++ (if dialed then [ConnClose] else []))%list in
  filter (fun e => is_close e = true) (transport g n from to message) = closes
  /\ drop (length (transport g n from to message) - length closes)
          (transport g n from to message) = closes.
Proof. cbv zeta; split; by_answers g n reflexivity. Qed.

(** X5: the transport authenticates exactly when both a user name and a
    password are given and STARTTLS, with all before it, has succeeded. *)
Theorem transport_auth (g : GUI) (n : network) (from to message : string) :
  existsb is_auth (transport g n from to message)
  = has_credentials g && forallb is_ok (take 4 (answers g n)).
Proof. by_answers g n reflexivity. Qed.

Lemma transport_call_of_all (g : GUI) (n : network) (from to message : string) (e : event) :
  e ∈ transport g n from to message -> is_call e = true ->
  e ∈ all_calls g from to message.
Proof.
  intros Hin Hcall. apply (subseteq_take (calls_made (answers g n))).
  rewrite <- transport_calls. apply list_elem_of_filter. now split.
Qed.

Lemma all_calls_envelope (g : GUI) (from to message : string) :
  (forall x, Mail x ∈ all_calls g from to message -> x = from)
  /\ (forall x, Rcpt x ∈ all_calls g from to message -> x = to)
  /\ (forall x, Write x ∈ all_calls g from to message -> x = message).
Proof.
  unfold all_calls. destruct (has_credentials g); cbn [app];
    repeat split; intros x; rewrite !elem_of_cons, elem_of_nil; intuition congruence.
Qed.

End TransportFacts.

(** ** [parseHeaders] *)

Section ParseHeadersFacts.
Context {unicode : GoUnicode}.

Lemma SplitN_2_Cut (s sep header body : string) :
  SplitN s sep 2 = [header; body] -> Cut s sep = Some (header, body).
Proof.
  simpl. destruct (Cut s sep) as [[b a]|]; [| easy]. now intros [= <- <-].
Qed.

(** X7: the body has no part in the headers: [parseHeaders] gives the same map
    for the header part alone and for the header part with any other
    body. *)
Theorem parseHeaders_ignores_body (rawContent header body : string) :
  SplitN rawContent (crlf +:+ crlf) 2 = [header; body] ->
  parseHeaders header = parseHeaders rawContent
  /\ forall body',
       parseHeaders (header +:+ (crlf +:+ crlf) +:+ body') = parseHeaders rawContent.
Proof.
  intros Hparts. pose proof (SplitN_2_Cut _ _ _ _ Hparts) as Hcut.
  unfold parseHeaders. rewrite Hparts. cbn [List.hd]. split.
  - assert (Hsep : crlf +:+ crlf <> EmptyString) by (vm_compute; discriminate).
    pose proof (Cut_before _ _ _ _ Hsep Hcut) as Hnone.
    cbn [SplitN]. now rewrite Hnone.
  - intros body'. cbn [SplitN]. now rewrite (Cut_after _ _ _ _ body' Hcut).
Qed.

Lemma parseHeaders_loop_snoc (lines : list string) (line : string)
    (headers : gmap string string) :
  Forall (fun l => l <> EmptyString) lines ->
  parseHeaders_loop (lines ++ [line]) headers
  = parseHeaders_loop [line] (parseHeaders_loop lines headers).
Proof.
  intros Hne. revert headers. induction Hne as [|l lines Hl _ IH]; intros headers.
  - reflexivity.
  - cbn [app parseHeaders_loop]. apply String.eqb_neq in Hl. rewrite Hl.
    destruct (SplitN l ": " 2) as [|k [|v [|? ?]]]; apply IH.
Qed.

(** X8: one more line at the end of the header lines.  With a colon and a
    space in it the line sets its name, in lower case and trimmed, to its
    trimmed value, whatever the lines before it say about that name: of two
    lines of one name the last one counts.  Without them it changes
    nothing. *)
Theorem parseHeaders_last_line_wins (lines : list string) (line k v : string)
    (headers : gmap string string) :
  Forall (fun l => l <> EmptyString) lines ->
  line <> EmptyString ->
  (SplitN line ": " 2 = [k; v] ->
   line = k +:+ ": " +:+ v
   /\ parseHeaders_loop (lines ++ [line]) headers
      = <[TrimSpace (ToLower k) := TrimSpace v]> (parseHeaders_loop lines headers)
   /\ parseHeaders_loop (lines ++ [line]) headers !! TrimSpace (ToLower k)
      = Some (TrimSpace v))
  /\ (Contains line ": " = false ->
      parseHeaders_loop (lines ++ [line]) headers = parseHeaders_loop lines headers).
Proof.
  intros Hne Hline. apply String.eqb_neq in Hline.
  rewrite (parseHeaders_loop_snoc lines line headers Hne).
  cbn [parseHeaders_loop]. rewrite Hline. split.
  - intros Hkv. rewrite Hkv. split; [| split].
    + destruct (SplitN_2 line ": ") as [(h & b & Hp & Heq) | Hp]; rewrite Hp in Hkv;
        [| discriminate].
      now injection Hkv as <- <-.
    + reflexivity.
    + apply lookup_insert_eq.
  - intros Hc. now rewrite (SplitN_2_no_separator line ": " Hc).
Qed.

(** A header part that starts with a line break has no headers: the loop
    stops at its first, empty, line. *)
Lemma parseHeaders_leading_blank (rawContent : string) :
  HasPrefix rawContent crlf = true -> parseHeaders rawContent = ∅.
Proof.
  intros Hp. unfold parseHeaders.
  assert (Hfirst : exists rest,
            Split (List.hd EmptyString (SplitN rawContent (crlf +:+ crlf) 2)) crlf
            = EmptyString :: rest).
  { cbn [SplitN]. destruct (Cut rawContent (crlf +:+ crlf)) as [[h b]|] eqn:Hcut;
      cbn [List.hd].
    - apply Cut_Some in Hcut. subst rawContent.
      destruct h as [|c1 [|c2 h]].
      + exists []. reflexivity.
      + simpl in Hp. destruct (Ascii.eqb c1 CR); discriminate.
      + simpl in Hp.
        destruct (Ascii.eqb_spec c1 CR) as [->|]; [| discriminate].
        destruct (Ascii.eqb_spec c2 LF) as [->|]; [| discriminate].
        unfold Split. cbn [String.length SplitN].
        change (String CR (String LF h)) with (crlf +:+ h). rewrite Cut_here. eauto.
    - apply HasPrefix_split in Hp. rewrite Hp.
      unfold Split. rewrite length_append. cbn [String.length crlf Nat.add SplitN].
      rewrite Cut_here. eauto. }
  destruct Hfirst as [rest ->]. reflexivity.
Qed.

End ParseHeadersFacts.

(** ** [sendEmail] *)

Section SendEmailMore.
Context {unicode : GoUnicode}.

Lemma extractEmailFromHeaders_missing (headers : gmap string string) (headerKey : string) :
  headers !! ToLower headerKey = None ->
  extractEmailFromHeaders headers headerKey = Return EmptyString.
Proof. intros Hnone. unfold extractEmailFromHeaders. now rewrite Hnone. Qed.

(** X9: a message without a From line, or without a To line, is not sent: the
    missing address is the empty string, which is not valid, and the run
    is the error dialog alone. *)
Theorem sendEmail_missing_address (g : GUI) (w : world) :
  let headers := parseHeaders (normalizeLineEndings (messageEnt g)) in
  (headers !! ToLower "from" = None
   /\ exists to, extractEmailFromHeaders headers "to" = Return to)
  \/ (headers !! ToLower "to" = None
      /\ exists from, extractEmailFromHeaders headers "from" = Return from) ->
  Splice.sendEmail g w = Return [ShowError "Invalid 'From' or 'To' address"]
  /\ Append.sendEmail g w = Return [ShowError "Invalid 'From' or 'To' address"].
Proof.
  intros headers [[Hnone [to Hto]] | [Hnone [from Hfrom]]].
  - pose proof (extractEmailFromHeaders_missing headers "from" Hnone) as Hfrom.
    rewrite (Splice_sendEmail_cases g w _ _ Hfrom Hto).
    rewrite (Append_sendEmail_cases g w _ _ Hfrom Hto).
    split; reflexivity.
  - pose proof (extractEmailFromHeaders_missing headers "to" Hnone) as Hto.
    rewrite (Splice_sendEmail_cases g w _ _ Hfrom Hto).
    rewrite (Append_sendEmail_cases g w _ _ Hfrom Hto).
    replace (isValidEmail from && isValidEmail "") with false
      by (now destruct (isValidEmail from)).
    split; reflexivity.
Qed.

(** X10: a text that starts with an empty line is not sent: it has no headers
    at all. *)
Theorem sendEmail_leading_blank_line (g : GUI) (w : world) :
  HasPrefix (messageEnt g) lf = true ->
  parseHeaders (normalizeLineEndings (messageEnt g)) = ∅
  /\ Splice.sendEmail g w = Return [ShowError "Invalid 'From' or 'To' address"]
  /\ Append.sendEmail g w = Return [ShowError "Invalid 'From' or 'To' address"].
Proof.
  intros Hp.
  assert (Hempty : parseHeaders (normalizeLineEndings (messageEnt g)) = ∅).
  { apply parseHeaders_leading_blank. rewrite normalizeLineEndings_expand.
    destruct (messageEnt g) as [|c s]; [discriminate |].
    simpl in Hp. simpl. destruct (Ascii.eqb c LF); [reflexivity | discriminate]. }
  split; [exact Hempty |].
  assert (Hfrom : extractEmailFromHeaders
                    (parseHeaders (normalizeLineEndings (messageEnt g))) "from"
                  = Return EmptyString).
  { apply extractEmailFromHeaders_missing. rewrite Hempty. apply lookup_empty. }
  assert (Hto : extractEmailFromHeaders
                  (parseHeaders (normalizeLineEndings (messageEnt g))) "to"
                = Return EmptyString).
  { apply extractEmailFromHeaders_missing. rewrite Hempty. apply lookup_empty. }
  rewrite (Splice_sendEmail_cases g w _ _ Hfrom Hto).
  rewrite (Append_sendEmail_cases g w _ _ Hfrom Hto).
  split; reflexivity.
Qed.

Lemma with_synthesized_nothing (messageIDHeader dateHeader : string) (headers : list string) :
  synthesized messageIDHeader dateHeader = [] \/ existsb is_subject headers = false ->
  with_synthesized messageIDHeader dateHeader headers = headers.
Proof.
  intros Hnothing. unfold with_synthesized.
  induction headers as [|h headers IH]; [reflexivity |].
  cbn [flat_map]. destruct Hnothing as [Hsyn | Hsub].
  - rewrite IH by now left. rewrite Hsyn. now destruct (is_subject h).
  - cbn [existsb] in Hsub. apply orb_false_elim in Hsub as [Hh Hrest].
    rewrite IH by now right. rewrite Hh. reflexivity.
Qed.

Lemma spliced_unchanged (rawContent header body messageIDHeader dateHeader : string) :
  SplitN rawContent (crlf +:+ crlf) 2 = [header; body] ->
  synthesized messageIDHeader dateHeader = []
  \/ existsb is_subject (Split header crlf) = false ->
  spliced rawContent messageIDHeader dateHeader = rawContent.
Proof.
  intros Hparts Hnothing.
  rewrite (spliced_separator _ _ _ _ _ Hparts).
  rewrite (with_synthesized_nothing _ _ _ Hnothing), Join_Split.
  destruct (SplitN_2 rawContent (crlf +:+ crlf)) as [(h & b & Hp & Heq) | Hp];
    rewrite Hp in Hparts; [| discriminate].
  injection Hparts as <- <-. rewrite Heq. now rewrite !append_assoc.
Qed.

(** X11: a message that has its own Message-ID and Date lines and a body is
    written by the [sendEmail] of mmg.go:1418 exactly as it was normalised:
    nothing is made up and nothing is added. *)
Theorem sendEmail_keeps_complete_message (g : GUI) (w : world) (tr : list event)
    (m id date : string) :
  let rawContent := normalizeLineEndings (messageEnt g) in
  let headers := parseHeaders rawContent in
  headers !! "message-id" = Some id ->
  headers !! "date" = Some date ->
  Contains rawContent (crlf +:+ crlf) = true ->
  Splice.sendEmail g w = Return tr ->
  written tr = Some m ->
  m = rawContent.
Proof.
  intros rawContent headers Hid Hdate Hsep Hrun Hw.
  pose proof (Splice_sendEmail_written g w tr m Hrun Hw) as ->.
  fold rawContent headers.
  destruct (SplitN_2_separator _ _ Hsep) as (header & body & Hparts & _).
  apply (spliced_unchanged _ header body); [exact Hparts |].
  left. unfold synthesized, messageIDHeader_of, dateHeader_of. now rewrite Hid, Hdate.
Qed.

(** X12: when the header part has no subject line, the [sendEmail] of
    mmg.go:1418 writes a message with a body exactly as it was normalised:
    the Message-ID and Date lines that it made up are in none of its
    lines. *)
Theorem sendEmail_without_subject_adds_nothing (g : GUI) (w : world) (tr : list event)
    (m header body : string) :
  let rawContent := normalizeLineEndings (messageEnt g) in
  SplitN rawContent (crlf +:+ crlf) 2 = [header; body] ->
  existsb is_subject (Split header crlf) = false ->
  Splice.sendEmail g w = Return tr ->
  written tr = Some m ->
  m = rawContent.
Proof.
  intros rawContent Hparts Hnone Hrun Hw.
  pose proof (Splice_sendEmail_written g w tr m Hrun Hw) as ->.
  fold rawContent. apply (spliced_unchanged _ header body); [exact Hparts | now right].
Qed.

Ltac stopped_in_panic Hrun :=
  exfalso; destruct Hrun as [Hrun | Hrun];
  unfold Splice.sendEmail, Append.sendEmail in Hrun; cbv zeta in Hrun;
  repeat match goal with
         | H : extractEmailFromHeaders _ _ = _ |- _ => rewrite H in Hrun; clear H
         end;
  discriminate Hrun.

(** X6: the envelope of a send: every MAIL FROM carries the address extracted
    from the From line and every RCPT TO the one extracted from the To
    line, and both have passed [isValidEmail]. *)
Theorem sendEmail_envelope (g : GUI) (w : world) (tr : list event) (x : string) :
  let headers := parseHeaders (normalizeLineEndings (messageEnt g)) in
  Splice.sendEmail g w = Return tr \/ Append.sendEmail g w = Return tr ->
  (Mail x ∈ tr ->
   extractEmailFromHeaders headers "from" = Return x /\ isValidEmail x = true)
  /\ (Rcpt x ∈ tr ->
      extractEmailFromHeaders headers "to" = Return x /\ isValidEmail x = true).
Proof.
  intros headers Hrun. subst headers.
  destruct (extractEmailFromHeaders (parseHeaders (normalizeLineEndings (messageEnt g))) "from")
    as [from|msg] eqn:Hfrom; [| stopped_in_panic Hrun].
  destruct (extractEmailFromHeaders (parseHeaders (normalizeLineEndings (messageEnt g))) "to")
    as [to|msg] eqn:Hto; [| stopped_in_panic Hrun].
  rewrite (Splice_sendEmail_cases g w from to Hfrom Hto) in Hrun.
  rewrite (Append_sendEmail_cases g w from to Hfrom Hto) in Hrun.
  destruct (isValidEmail from) eqn:Hf, (isValidEmail to) eqn:Ht; cbn [andb] in Hrun.
  2-4: (destruct Hrun as [[= <-] | [= <-]];
        split; intros Hin; apply list_elem_of_singleton in Hin; discriminate).
  assert (Htr : exists message, tr = SetStatus "Starting SMTP session..."
                                     :: transport g (net w) from to message).
  { destruct Hrun as [[= <-] | [= <-]]; eauto. }
  destruct Htr as [message ->].
  destruct (all_calls_envelope g from to message) as (Hmail & Hrcpt & _).
  split; intros Hin; apply elem_of_cons in Hin as [Hin | Hin]; try discriminate;
    apply transport_call_of_all in Hin; try reflexivity.
  - apply Hmail in Hin. now subst x.
  - apply Hrcpt in Hin. now subst x.
Qed.

(** X13: the [sendEmail] of mmg.go:761 changes a message that has its own
    Message-ID and Date lines and a body: it writes it with one more CR LF
    after the header part, so that the body begins with an empty line that
    the text did not have. *)
Theorem Append_sendEmail_adds_empty_line (g : GUI) (w : world) (tr : list event)
    (m header body id date : string) :
  let rawContent := normalizeLineEndings (messageEnt g) in
  let headers := parseHeaders rawContent in
  headers !! "message-id" = Some id ->
  headers !! "date" = Some date ->
  SplitN rawContent (crlf +:+ crlf) 2 = [header; body] ->
  Append.sendEmail g w = Return tr ->
  written tr = Some m ->
  m = header +:+ crlf +:+ crlf +:+ crlf +:+ body
  /\ SplitN m (crlf +:+ crlf) 2 = [header; crlf +:+ body]
  /\ String.length m = String.length rawContent + 2.
Proof.
  intros rawContent headers Hid Hdate Hparts Hrun Hw.
  pose proof (Append_sendEmail_written g w tr m Hrun Hw) as Hm.
  fold rawContent headers in Hm.
  rewrite (appended_separator _ _ _ _ _ Hparts) in Hm.
  unfold messageIDHeader_of, dateHeader_of in Hm. rewrite Hid, Hdate in Hm.
  change (header +:+ crlf +:+ "" +:+ "" +:+ crlf +:+ crlf +:+ body)
    with (header +:+ crlf +:+ crlf +:+ crlf +:+ body) in Hm.
  pose proof (SplitN_2_Cut _ _ _ _ Hparts) as Hcut.
  split; [exact Hm |]. split.
  - subst m.
    change (header +:+ crlf +:+ crlf +:+ crlf +:+ body)
      with (header +:+ (crlf +:+ crlf) +:+ (crlf +:+ body)).
    cbn [SplitN]. now rewrite (Cut_after _ _ _ _ (crlf +:+ body) Hcut).
  - apply Cut_Some in Hcut. rewrite Hcut, Hm, !length_append. simpl. lia.
Qed.

End SendEmailMore.

(** ** [normalizeLineEndings] *)

Section NormalizeMore.

Lemma expand_LF_first (s : string) : HasPrefix (expand_LF s) lf = false.
Proof.
  destruct s as [|c s]; [reflexivity |].
  simpl. destruct (Ascii.eqb c LF) eqn:E; simpl; [reflexivity | now rewrite E].
Qed.

Lemma length_expand_LF (s : string) : String.length s <= String.length (expand_LF s).
Proof.
  induction s as [|c s IH]; [reflexivity |].
  simpl. destruct (Ascii.eqb c LF); simpl; lia.
Qed.

Lemma expand_LF_no_bare_CR (s : string) :
  Contains s (String CR EmptyString) = false -> has_bare_CR (expand_LF s) = false.
Proof.
  induction s as [|c s IH]; [reflexivity |].
  rewrite Contains_cons. intros [Hc Hs]%orb_false_elim.
  simpl. destruct (Ascii.eqb c LF) eqn:E; simpl.
  - now rewrite (IH Hs).
  - now rewrite Hc, (IH Hs).
Qed.

(** The occurrences of CR LF in the result are the line feeds of the
    input. *)
Lemma Cut_expand_LF (s : string) :
  Cut (expand_LF s) crlf
  = match Cut s lf with
    | Some (before, after) => Some (before, expand_LF after)
    | None => None
    end.
Proof.
  induction s as [|c s IH]; [reflexivity |].
  cbn [expand_LF]. destruct (Ascii.eqb_spec c LF) as [->|Hc].
  - exact (Cut_here crlf (expand_LF s)).
  - assert (Hlf : HasPrefix (String c s) lf = false).
    { simpl. now destruct (Ascii.eqb_spec c LF). }
    assert (Hcrlf : HasPrefix (String c (expand_LF s)) crlf = false).
    { change (HasPrefix (String c (expand_LF s)) crlf)
        with (if Ascii.eqb c CR then HasPrefix (expand_LF s) lf else false).
      rewrite expand_LF_first. now destruct (Ascii.eqb c CR). }
    rewrite (Cut_not_here _ _ _ Hlf), (Cut_not_here _ _ _ Hcrlf), IH.
    now destruct (Cut s lf) as [[b a]|].
Qed.

Lemma Replace_loop_back (n : nat) (s : string) :
  String.length s <= n -> Replace_loop n (expand_LF s) crlf lf = s.
Proof.
  revert s. induction n as [|n IH]; intros s Hn.
  - destruct s; [reflexivity | simpl in Hn; lia].
  - cbn [Replace_loop]. rewrite Cut_expand_LF.
    destruct (Cut s lf) as [[b a]|] eqn:Hcut.
    + destruct (Cut_lf_Some _ _ _ Hcut) as [_ Hlen].
      rewrite IH by lia. symmetry. now apply Cut_Some.
    + now apply Cut_lf_None.
Qed.

(** X14: for every text the result has no line feed without a carriage return
    before it, and for a text without carriage returns it has no carriage
    return without a line feed after it either: its line breaks are CR LF,
    all of them. *)
Theorem normalizeLineEndings_CRLF_only (input : string) :
  has_bare_LF (normalizeLineEndings input) = false
  /\ (Contains input (String CR EmptyString) = false ->
      has_bare_CR (normalizeLineEndings input) = false).
Proof.
  rewrite normalizeLineEndings_expand. split.
  - apply expand_LF_no_bare_LF.
  - apply expand_LF_no_bare_CR.
Qed.

(** X15: nothing is lost: putting LF back for every CR LF of the result gives
    the input, whatever carriage returns it had; two different texts are
    never normalised to the same one. *)
Theorem normalizeLineEndings_reversible (input other : string) :
  ReplaceAll (normalizeLineEndings input) crlf lf = input
  /\ (normalizeLineEndings input = normalizeLineEndings other -> input = other).
Proof.
  assert (Hback : forall s, ReplaceAll (normalizeLineEndings s) crlf lf = s).
  { intros s. rewrite normalizeLineEndings_expand. unfold ReplaceAll.
    change (String.eqb crlf lf) with false. cbv iota.
    apply Replace_loop_back, length_expand_LF. }
  split; [apply Hback |].
  intros Heq. rewrite <- (Hback input), <- (Hback other). now rewrite Heq.
Qed.

End NormalizeMore.

(** ** The esub token *)

Section EsubMore.
Context {crypto : Crypto}.

Lemma esubgen_token (e : esub) (nonce : list byte) (token : string) :
  esubgen e nonce = Return token ->
  token = EncodeToString (nonce ++ expected_ciphertext (deriveKey e) nonce).
Proof.
  unfold esubgen, NewUnauthenticatedCipher.
  destruct ((length (deriveKey e) =? 32) && ((length nonce =? 12) || (length nonce =? 24)))%nat;
    [| discriminate].
  rewrite XORKeyStream_textHash. cbn. now intros [= <-].
Qed.

(** X16: two draws of the nonce that give the same token are the same draw:
    tokens made from different nonces differ. *)
Theorem esubgen_nonce_injective (e : esub) (nonce1 nonce2 : list byte) (token : string) :
  esubgen e nonce1 = Return token ->
  esubgen e nonce2 = Return token ->
  nonce1 = nonce2.
Proof.
  intros H1 H2. apply esubgen_token in H1, H2. rewrite H1 in H2.
  apply EncodeToString_inj in H2.
  apply app_inj_2 in H2 as [H2 _]; [exact H2 |].
  now rewrite !length_expected_ciphertext.
Qed.

(** X17: for one key and one nonce [esubtest] accepts one cipher text only: two
    accepted tokens that decode to the same nonce decode to the same 24
    bytes. *)
Theorem esubtest_one_ciphertext (k token1 token2 : string) (bytes1 bytes2 : list byte) :
  esubtest {| key := k; subject := token1 |} = Return true ->
  esubtest {| key := k; subject := token2 |} = Return true ->
  DecodeString token1 = Some bytes1 ->
  DecodeString token2 = Some bytes2 ->
  take 12 bytes1 = take 12 bytes2 ->
  bytes1 = bytes2.
Proof.
  intros H1 H2 Hd1 Hd2 Hnonce.
  assert (Hlen : forall t, esubtest {| key := k; subject := t |} = Return true ->
                 String.length t = 48).
  { intros t Ht. unfold esubtest in Ht. cbn [subject] in Ht.
    destruct (String.length t =? 48)%nat eqn:E; [now apply Nat.eqb_eq in E | discriminate]. }
  destruct (esubtest_decoded {| key := k; subject := token1 |} bytes1 (Hlen _ H1) Hd1)
    as [_ E1].
  destruct (esubtest_decoded {| key := k; subject := token2 |} bytes2 (Hlen _ H2) Hd2)
    as [_ E2].
  rewrite E1 in H1. rewrite E2 in H2.
  injection H1 as H1. injection H2 as H2.
  apply bool_decide_eq_true in H1, H2.
  rewrite <- (take_drop 12 bytes1), <- (take_drop 12 bytes2).
  change (drop 12 bytes1) with (List.skipn 12 bytes1).
  change (drop 12 bytes2) with (List.skipn 12 bytes2).
  rewrite <- H1, <- H2, Hnonce. reflexivity.
Qed.

End EsubMore.

(** ** The template editor *)

Section TemplateFacts.
Context {unicode : GoUnicode}.
Import Templates.

Lemma saveTemplate_loop_spec (ts : list Template) (newTemplate : Template) :
  match list_find (fun t => Name t = Name newTemplate) ts with
  | Some (i, _) => saveTemplate_loop ts newTemplate = (<[i := newTemplate]> ts, true)
  | None => saveTemplate_loop ts newTemplate = (ts, false)
  end.
Proof.
  induction ts as [|t ts IH]; [reflexivity |].
  cbn [saveTemplate_loop list_find]. destruct (String.eqb_spec (Name t) (Name newTemplate)) as [Heq|Hne].
  - rewrite decide_True by exact Heq. reflexivity.
  - rewrite decide_False by exact Hne.
    destruct (list_find (fun t => Name t = Name newTemplate) ts) as [[i t']|];
      cbn [fmap option_fmap option_map prod_map fst snd]; rewrite IH; reflexivity.
Qed.

(** The list after [saveTemplate], for a name that is not empty. *)
Lemma saveTemplate_templates (g : editor) (save_err : option string) :
  templateName g <> EmptyString ->
  templates (saveTemplate g save_err).1
  = match list_find (fun t => Name t = templateName g) (templates g) with
    | Some (i, _) => <[i := saved g]> (templates g)
    | None => templates g ++ [saved g]
    end.
Proof.
  intros Hname. apply String.eqb_neq in Hname. unfold saveTemplate. rewrite Hname.
  fold (saved g). pose proof (saveTemplate_loop_spec (templates g) (saved g)) as Hloop.
  cbn [Name saved] in Hloop.
  destruct (list_find (fun t => Name t = templateName g) (templates g)) as [[i t]|];
    rewrite Hloop; now destruct save_err.
Qed.

(** X18: [saveTemplate] keeps the names of the templates unique, and the list
    grows by one template exactly when the name is new. *)
Theorem saveTemplate_keeps_names_unique (g : editor) (save_err : option string) :
  templateName g <> EmptyString ->
  NoDup (Name <$> templates g) ->
  NoDup (Name <$> templates (saveTemplate g save_err).1)
  /\ length (templates (saveTemplate g save_err).1)
     = length (templates g)
       + (if decide (templateName g ∈ Name <$> templates g) then 0 else 1).
Proof.
  intros Hname Hnodup. rewrite (saveTemplate_templates g save_err Hname).
  destruct (list_find (fun t => Name t = templateName g) (templates g)) as [[i t]|] eqn:Hfind.
  - apply list_find_Some in Hfind as (Hi & Ht & _).
    rewrite list_fmap_insert, length_insert. cbn [Name saved].
    rewrite list_insert_id by (rewrite list_lookup_fmap, Hi; cbn; now rewrite Ht).
    split; [exact Hnodup |].
    rewrite decide_True; [lia |].
    apply list_elem_of_fmap. exists t. split; [easy |]. eapply list_elem_of_lookup_2, Hi.
  - apply list_find_None in Hfind.
    assert (Hnew : templateName g ∉ Name <$> templates g).
    { intros (t & Heq & Hin)%list_elem_of_fmap.
      rewrite Forall_forall in Hfind. now apply (Hfind t Hin). }
    rewrite fmap_app, length_app. cbn [fmap list_fmap Name saved length]. split.
    + apply NoDup_app. split; [exact Hnodup |]. split; [| apply NoDup_singleton].
      intros x Hx ->%list_elem_of_singleton. contradiction.
    + now rewrite decide_False.
Qed.

(** X19: what is saved can be selected again: after [saveTemplate] the list
    holds the new template, under the first index of its name, and
    selecting that index fills the editor with the name, the description
    and the trimmed headers and body. *)
Theorem saveTemplate_then_selectTemplate (g : editor) (save_err : option string) :
  templateName g <> EmptyString ->
  let g' := (saveTemplate g save_err).1 in
  exists i,
    templates g' !! i = Some (saved g)
    /\ (forall j t, templates g' !! j = Some t -> j < i -> Name t <> templateName g)
    /\ selectTemplate g' (Z.of_nat i)
       = Return {| templates := templates g'; selectedTemplate := Z.of_nat i;
                   templateName := templateName g; templateDesc := templateDesc g;
                   templateEditor := TrimSpace (templateEditor g);
                   messageEnt := TrimSpace (messageEnt g) |}.
Proof.
  intros Hname g'.
  assert (Hi : exists i, templates g' !! i = Some (saved g)
               /\ forall j t, templates g' !! j = Some t -> j < i -> Name t <> templateName g).
  { subst g'. rewrite (saveTemplate_templates g save_err Hname).
    destruct (list_find (fun t => Name t = templateName g) (templates g)) as [[i t]|] eqn:Hfind.
    - apply list_find_Some in Hfind as (Hi & Ht & Hfirst).
      exists i. split.
      + apply list_lookup_insert_eq. eapply lookup_lt_Some, Hi.
      + intros j t' Hj Hlt. rewrite list_lookup_insert_ne in Hj by lia.
        now apply (Hfirst j t' Hj Hlt).
    - apply list_find_None in Hfind. exists (length (templates g)). split.
      + rewrite lookup_app_r by lia. now rewrite Nat.sub_diag.
      + intros j t' Hj Hlt. rewrite lookup_app_l in Hj by lia.
        rewrite Forall_forall in Hfind. apply Hfind. eapply list_elem_of_lookup_2, Hj. }
  destruct Hi as (i & Hi & Hfirst). exists i. split; [exact Hi |]. split; [exact Hfirst |].
  unfold selectTemplate.
  replace (0 <=? Z.of_nat i)%Z with true by (symmetry; apply Z.leb_le; lia).
  now rewrite Nat2Z.id, Hi.
Qed.

(** X20: [saveTemplate] touches no template of another name: those are the same,
    in the same order, before and after; with an empty name it changes
    nothing at all and shows one error. *)
Theorem saveTemplate_keeps_other_templates (g : editor) (save_err : option string) :
  (templateName g = EmptyString ->
   saveTemplate g save_err = (g, [ShowError "Template name is required"]))
  /\ (templateName g <> EmptyString ->
      filter (fun t => Name t <> templateName g) (templates (saveTemplate g save_err).1)
      = filter (fun t => Name t <> templateName g) (templates g)).
Proof.
  split.
  - intros Hname. unfold saveTemplate. now rewrite Hname.
  - intros Hname. rewrite (saveTemplate_templates g save_err Hname).
    destruct (list_find (fun t => Name t = templateName g) (templates g)) as [[i t]|] eqn:Hfind.
    + apply list_find_Some in Hfind as (Hi & Ht & _).
      rewrite insert_take_drop by (eapply lookup_lt_Some, Hi).
      rewrite <- (take_drop_middle (templates g) i t Hi) at 3.
      rewrite !filter_app, !filter_cons.
      rewrite decide_False by (cbn; intros Hne; now apply Hne).
      now rewrite decide_False by (intros Hne; now apply Hne).
    + rewrite filter_app, filter_cons.
      rewrite decide_False by (cbn; intros Hne; now apply Hne).
      now rewrite filter_nil, app_nil_r.
Qed.

(** X21: [deleteTemplate] deletes only what is selected: with a selection out of
    range, -1 included, it changes nothing and shows one error; with a
    selection in range it takes that one template out and leaves the others
    in their order.  When the list was written, nothing is selected
    afterwards; when writing failed, the selection stays where it was. *)
Theorem deleteTemplate_effect (g : editor) (save_err : option string) :
  ((selectedTemplate g < 0)%Z \/ (Z.of_nat (length (templates g)) <= selectedTemplate g)%Z ->
   deleteTemplate g save_err = (g, [ShowError "No template selected"]))
  /\ ((0 <= selectedTemplate g < Z.of_nat (length (templates g)))%Z ->
      let g' := (deleteTemplate g save_err).1 in
      templates g' = delete (Z.to_nat (selectedTemplate g)) (templates g)
      /\ S (length (templates g')) = length (templates g)
      /\ (NoDup (Name <$> templates g) -> NoDup (Name <$> templates g'))
      /\ selectedTemplate g'
         = match save_err with Some _ => selectedTemplate g | None => (-1)%Z end).
Proof.
  split.
  - intros Hout. unfold deleteTemplate.
    replace ((selectedTemplate g <? 0)%Z
             || (Z.of_nat (length (templates g)) <=? selectedTemplate g)%Z) with true;
      [reflexivity |].
    symmetry. apply orb_true_iff. destruct Hout; [left; lia | right; lia].
  - intros Hin g'.
    assert (Hts : templates g' = delete (Z.to_nat (selectedTemplate g)) (templates g)
                  /\ selectedTemplate g'
                     = match save_err with Some _ => selectedTemplate g | None => (-1)%Z end).
    { subst g'. unfold deleteTemplate.
      replace ((selectedTemplate g <? 0)%Z
               || (Z.of_nat (length (templates g)) <=? selectedTemplate g)%Z) with false
        by (symmetry; apply orb_false_iff; lia).
      rewrite delete_take_drop, Nat.add_1_r. now destruct save_err. }
    destruct Hts as [Hts Hsel]. rewrite Hts.
    assert (Hlook : is_Some (templates g !! Z.to_nat (selectedTemplate g))).
    { apply lookup_lt_is_Some. lia. }
    repeat split.
    + rewrite (length_delete _ _ Hlook). apply lookup_lt_is_Some in Hlook. lia.
    + intros Hnodup. rewrite list_fmap_delete.
      eapply sublist_NoDup; [exact Hnodup | apply sublist_delete].
    + exact Hsel.
Qed.

(** X22: delete pressed twice deletes one template: after a [deleteTemplate]
    that wrote the list, a second one finds nothing selected. *)
Theorem deleteTemplate_twice (g : editor) (save_err : option string) :
  deleteTemplate (deleteTemplate g None).1 save_err
  = ((deleteTemplate g None).1, [ShowError "No template selected"]).
Proof.
  unfold deleteTemplate at 2 3.
  destruct ((selectedTemplate g <? 0)%Z
            || (Z.of_nat (length (templates g)) <=? selectedTemplate g)%Z) eqn:Hout.
  - cbn [fst]. unfold deleteTemplate. now rewrite Hout.
  - reflexivity.
Qed.

End TemplateFacts.

(** ** The MIME subject encoder *)

Section MimeFacts.
Context {mime : GoMime}.

(** Splitting undoes the closing of the words. *)
Lemma Split_words (x y : ascii) (words : list string) (tail : string) :
  x <> y ->
  Forall (fun w => Contains w (String x (String y "")) = false) words ->
  Contains tail (String x (String y "")) = false ->
  Split (concat_all (map (fun w => w +:+ String x (String y "")) words) +:+ tail)
        (String x (String y ""))
  = words ++ [tail].
Proof.
  intros Hxy Hwords Htail. induction Hwords as [|w words Hw _ IH].
  - exact (Split_single _ _ Htail).
  - cbn [map concat_all]. rewrite !append_assoc.
    set (rest := concat_all (map (fun w => w +:+ String x (String y "")) words) +:+ tail) in *.
    unfold Split at 1.
    assert (Hlen : String.length (w +:+ String x (String y "") +:+ rest)
                   = S (S (String.length w + String.length rest))).
    { rewrite !length_append. simpl. lia. }
    rewrite Hlen.
    change (SplitN (w +:+ String x (String y "") +:+ rest) (String x (String y ""))
              (S (S (S (String.length w + String.length rest)))))
      with (match Cut (w +:+ String x (String y "") +:+ rest) (String x (String y "")) with
            | Some (before, after) =>
                before :: SplitN after (String x (String y ""))
                            (S (S (String.length w + String.length rest)))
            | None => [w +:+ String x (String y "") +:+ rest]
            end).
    rewrite (Cut_first x y w rest Hxy Hw).
    rewrite SplitN_enough by (easy || lia). now rewrite IH.
Qed.

Lemma encodeMIMESubject_loop_concat (i : nat) (parts : list string) (result : string) :
  encodeMIMESubject_loop i parts result
  = result +:+ concat_all (map (fun part => part +:+ "?=" +:+ lf) parts).
Proof.
  revert i result. induction parts as [|part parts IH]; intros i result.
  - cbn. now rewrite append_nil_r.
  - cbn [encodeMIMESubject_loop map concat_all]. rewrite IH.
    destruct (0 <? i)%nat; rewrite ?append_nil_r; now rewrite !append_assoc.
Qed.

Lemma concat_all_lines (words : list string) :
  words <> [] ->
  concat_all (map (fun part => part +:+ "?=" +:+ lf) words)
  = Join (map (fun w => w +:+ "?=") words) lf +:+ lf.
Proof.
  induction words as [|w [|w' words] IH]; [easy | |]; intros _.
  - cbn. now rewrite append_nil_r, append_assoc.
  - change (concat_all (map (fun part => part +:+ "?=" +:+ lf) (w :: w' :: words)))
      with ((w +:+ "?=" +:+ lf)
            +:+ concat_all (map (fun part => part +:+ "?=" +:+ lf) (w' :: words))).
    rewrite IH by easy.
    change (Join (map (fun w => w +:+ "?=") (w :: w' :: words)) lf)
      with ((w +:+ "?=") +:+ lf +:+ Join (map (fun w => w +:+ "?=") (w' :: words)) lf).
    now rewrite !append_assoc.
Qed.

(** X23: a subject whose encoding holds no [?=] comes back as it was encoded,
    and the empty subject as the empty string. *)
Theorem encodeMIMESubject_plain (Subject : string) :
  (Subject = EmptyString -> encodeMIMESubject Subject = EmptyString)
  /\ (Subject <> EmptyString ->
      Contains (BEncoding_Encode "UTF-8" Subject) "?=" = false ->
      encodeMIMESubject Subject = BEncoding_Encode "UTF-8" Subject).
Proof.
  split.
  - now intros ->.
  - intros Hne Hc. apply String.eqb_neq in Hne. unfold encodeMIMESubject.
    now rewrite Hne, (Split_single _ _ Hc).
Qed.

(** X24: a line feed is put after every [?=] of the encoding, and one line feed
    at the very end is taken off: where the encoding ends in [?=], as every
    encoding in encoded words does, the encoded words come out one per
    line. *)
Theorem encodeMIMESubject_breaks_after_each_word
    (Subject : string) (words : list string) (tail : string) :
  Subject <> EmptyString ->
  words <> [] ->
  Forall (fun w => Contains w "?=" = false) words ->
  Contains tail "?=" = false ->
  BEncoding_Encode "UTF-8" Subject
  = concat_all (map (fun w => w +:+ "?=") words) +:+ tail ->
  encodeMIMESubject Subject
  = TrimSuffix (Join (map (fun w => w +:+ "?=") words) lf +:+ lf +:+ tail) lf
  /\ (tail = EmptyString ->
      encodeMIMESubject Subject = Join (map (fun w => w +:+ "?=") words) lf).
Proof.
  intros Hne Hwords Hfree Htail Henc. apply String.eqb_neq in Hne.
  assert (Hres : encodeMIMESubject Subject
                 = TrimSuffix (Join (map (fun w => w +:+ "?=") words) lf +:+ lf +:+ tail) lf).
  { unfold encodeMIMESubject. rewrite Hne, Henc.
    rewrite (Split_words "?" "=" words tail ltac:(easy) Hfree Htail).
    rewrite length_app, removelast_last, last_last. cbn [length].
    replace (length words + 1 <=? 1)%nat with false
      by (symmetry; apply Nat.leb_gt; destruct words; [easy | simpl; lia]).
    rewrite encodeMIMESubject_loop_concat.
    change ("" +:+ concat_all (map (fun part => part +:+ "?=" +:+ lf) words))
      with (concat_all (map (fun part => part +:+ "?=" +:+ lf) words)).
    now rewrite (concat_all_lines words Hwords), append_assoc. }
  split; [exact Hres |]. intros ->. rewrite Hres, append_nil_r. apply TrimSuffix_app.
Qed.

End MimeFacts.

(** ** The status log *)

Section LogFacts.

(** X25: the status label never gets more than 83 bytes from [log]: a message
    of at most 80 bytes is shown as it is, a longer one is cut to its first
    80 bytes and three dots. *)
Theorem log_bounded (message : string) :
  String.length (log message).1 <= 83
  /\ (String.length message <= 80 -> (log message).1 = message)
  /\ (80 < String.length message ->
      (log message).1 = substring 0 80 message +:+ "..."
      /\ String.length (log message).1 = 83).
Proof.
  unfold log. cbn [fst].
  destruct (80 <? String.length message)%nat eqn:E.
  - apply Nat.ltb_lt in E.
    assert (Hlen : String.length (substring 0 80 message +:+ "...") = 83).
    { rewrite length_append, length_substring_0 by lia. reflexivity. }
    split; [lia |]. split; [lia |]. intros _. split; [reflexivity | exact Hlen].
  - apply Nat.ltb_ge in E. split; [lia |]. split; [reflexivity | lia].
Qed.

End LogFacts.

(** * More runs

    The statements of the last part at concrete inputs. *)

(** ** The transport and the envelope *)

Lemma transport_tls_first_witness :
  socks5_err network_up = None /\ dial_err network_up = None
  /\ newclient_err network_up = None /\ starttls_err network_up = None.
Proof.
  apply (transport_tls_first (compose scenario) network_up "a@x.com" "b@y.com" "hi").
  reflexivity.
Defined.

Lemma sendEmail_envelope_witness :
  extractEmailFromHeaders (unicode := ascii_tables)
    (parseHeaders (unicode := ascii_tables) (normalizeLineEndings scenario)) "from"
  = Return "a@x.com"
  /\ isValidEmail "a@x.com" = true.
Proof.
  destruct (sendEmail_envelope (unicode := ascii_tables) (compose scenario) world0
              (run_of (Splice.sendEmail (unicode := ascii_tables) (compose scenario) world0))
              "a@x.com") as [Hmail _]; [left; reflexivity |].
  apply Hmail. vm_compute.
  repeat (first [apply list_elem_of_here | apply list_elem_of_further]).
Defined.

(** ** [parseHeaders] *)

Lemma parseHeaders_ignores_body_witness :
  let header := "From: a@x.com" +:+ crlf +:+ "To: b@y.com" +:+ crlf +:+ "Subject: hi" in
  parseHeaders (unicode := ascii_tables) header
  = parseHeaders (unicode := ascii_tables) (normalizeLineEndings scenario)
  /\ forall body',
       parseHeaders (unicode := ascii_tables) (header +:+ (crlf +:+ crlf) +:+ body')
       = parseHeaders (unicode := ascii_tables) (normalizeLineEndings scenario).
Proof.
  apply (parseHeaders_ignores_body (unicode := ascii_tables) (normalizeLineEndings scenario)
           ("From: a@x.com" +:+ crlf +:+ "To: b@y.com" +:+ crlf +:+ "Subject: hi") "body").
  reflexivity.
Defined.

(** Two From lines: the second one counts. *)
Lemma parseHeaders_last_line_wins_witness :
  parseHeaders_loop (unicode := ascii_tables) (["From: a@x.com"] ++ ["From: c@z.com"])
    (∅ : gmap string string) !! "from"
  = Some "c@z.com".
Proof.
  destruct (parseHeaders_last_line_wins (unicode := ascii_tables)
              ["From: a@x.com"] "From: c@z.com" "From" "c@z.com" (∅ : gmap string string))
    as [Hset _].
  - constructor; [discriminate | constructor].
  - discriminate.
  - exact (proj2 (proj2 (Hset eq_refl))).
Defined.

(** ** [sendEmail] *)

Lemma sendEmail_missing_address_witness :
  let text := "To: b@y.com" +:+ lf +:+ lf +:+ "hi" in
  Splice.sendEmail (unicode := ascii_tables) (compose text) world0
    = Return [ShowError "Invalid 'From' or 'To' address"]
  /\ Append.sendEmail (unicode := ascii_tables) (compose text) world0
    = Return [ShowError "Invalid 'From' or 'To' address"].
Proof.
  apply (sendEmail_missing_address (unicode := ascii_tables)
           (compose ("To: b@y.com" +:+ lf +:+ lf +:+ "hi")) world0).
  left. split; [vm_compute; reflexivity | exists "b@y.com"; vm_compute; reflexivity].
Defined.

Lemma sendEmail_leading_blank_line_witness :
  parseHeaders (unicode := ascii_tables) (normalizeLineEndings (lf +:+ scenario)) = ∅
  /\ Splice.sendEmail (unicode := ascii_tables) (compose (lf +:+ scenario)) world0
     = Return [ShowError "Invalid 'From' or 'To' address"]
  /\ Append.sendEmail (unicode := ascii_tables) (compose (lf +:+ scenario)) world0
     = Return [ShowError "Invalid 'From' or 'To' address"].
Proof.
  apply (sendEmail_leading_blank_line (unicode := ascii_tables)
           (compose (lf +:+ scenario)) world0).
  reflexivity.
Defined.

Lemma sendEmail_keeps_complete_message_witness :
  message_of (Splice.sendEmail (unicode := ascii_tables) (compose complete) world0)
  = normalizeLineEndings complete.
Proof.
  apply (sendEmail_keeps_complete_message (unicode := ascii_tables) (compose complete) world0
           (run_of (Splice.sendEmail (unicode := ascii_tables) (compose complete) world0))
           (message_of (Splice.sendEmail (unicode := ascii_tables) (compose complete) world0))
           "<1@x.com>" "Tue, 14 Nov 2023 22:13:20 +0000");
    vm_compute; reflexivity.
Defined.

Lemma sendEmail_without_subject_adds_nothing_witness :
  message_of (Splice.sendEmail (unicode := ascii_tables) (compose no_subject) world0)
  = normalizeLineEndings no_subject.
Proof.
  apply (sendEmail_without_subject_adds_nothing (unicode := ascii_tables)
           (compose no_subject) world0
           (run_of (Splice.sendEmail (unicode := ascii_tables) (compose no_subject) world0))
           (message_of (Splice.sendEmail (unicode := ascii_tables) (compose no_subject) world0))
           ("From: a@x.com" +:+ crlf +:+ "To: b@y.com") "body");
    vm_compute; reflexivity.
Defined.

(** The same complete message through the [sendEmail] of mmg.go:761: three
    CR LF between the Date line and the body. *)
Lemma Append_sendEmail_adds_empty_line_witness :
  let header := Join ["From: a@x.com"; "To: b@y.com"; "Subject: hi"; "Message-ID: <1@x.com>";
                      "Date: Tue, 14 Nov 2023 22:13:20 +0000"] crlf in
  let m := message_of (Append.sendEmail (unicode := ascii_tables) (compose complete) world0) in
  m = header +:+ crlf +:+ crlf +:+ crlf +:+ "body"
  /\ SplitN m (crlf +:+ crlf) 2 = [header; crlf +:+ "body"]
  /\ String.length m = String.length (normalizeLineEndings complete) + 2.
Proof.
  apply (Append_sendEmail_adds_empty_line (unicode := ascii_tables) (compose complete) world0
           (run_of (Append.sendEmail (unicode := ascii_tables) (compose complete) world0))
           (message_of (Append.sendEmail (unicode := ascii_tables) (compose complete) world0))
           (Join ["From: a@x.com"; "To: b@y.com"; "Subject: hi"; "Message-ID: <1@x.com>";
                  "Date: Tue, 14 Nov 2023 22:13:20 +0000"] crlf)
           "body" "<1@x.com>" "Tue, 14 Nov 2023 22:13:20 +0000");
    vm_compute; reflexivity.
Defined.

(** ** [normalizeLineEndings] *)

Lemma normalizeLineEndings_CRLF_only_witness :
  has_bare_CR (normalizeLineEndings scenario) = false.
Proof.
  apply (proj2 (normalizeLineEndings_CRLF_only scenario)). reflexivity.
Defined.

Lemma normalizeLineEndings_reversible_witness :
  scenario = ReplaceAll (normalizeLineEndings scenario) crlf lf.
Proof.
  apply (proj2 (normalizeLineEndings_reversible scenario
                  (ReplaceAll (normalizeLineEndings scenario) crlf lf))).
  vm_compute. reflexivity.
Defined.

(** ** The esub token *)

Lemma esubgen_nonce_injective_witness :
  esubgen (crypto := toy_crypto) {| key := "passphrase"; subject := "" |} (replicate 12 xab)
  = Return "abababababababababababab000000000000000000000000"
  /\ replicate 12 xab = take 12 (replicate 24 xab).
Proof.
  split; [reflexivity |].
  apply (esubgen_nonce_injective (crypto := toy_crypto)
           {| key := "passphrase"; subject := "" |}
           (replicate 12 xab) (take 12 (replicate 24 xab))
           "abababababababababababab000000000000000000000000");
    reflexivity.
Defined.

(** The token of the last run in lower and in upper case: two accepted
    tokens of one nonce, the same 24 bytes. *)
Lemma esubtest_one_ciphertext_witness :
  DecodeString "abababababababababababab000000000000000000000000"
  = Some (replicate 12 xab ++ replicate 12 x00)
  /\ DecodeString "ABABABABABABABABABABABAB000000000000000000000000"
     = Some (replicate 12 xab ++ replicate 12 x00)
  /\ replicate 12 xab ++ replicate 12 x00 = replicate 12 xab ++ replicate 12 x00.
Proof.
  split; [reflexivity |]. split; [reflexivity |].
  apply (esubtest_one_ciphertext (crypto := toy_crypto) "passphrase"
           "abababababababababababab000000000000000000000000"
           "ABABABABABABABABABABABAB000000000000000000000000");
    reflexivity.
Defined.

(** ** The template editor *)

Lemma saveTemplate_keeps_names_unique_witness :
  NoDup (Templates.Name
           <$> Templates.templates
                 (Templates.saveTemplate (unicode := ascii_tables) editor0 None).1)
  /\ length (Templates.templates
               (Templates.saveTemplate (unicode := ascii_tables) editor0 None).1)
     = 2.
Proof.
  destruct (saveTemplate_keeps_names_unique (unicode := ascii_tables) editor0 None)
    as [Hnodup Hlen].
  - discriminate.
  - repeat (apply NoDup_cons_2; [vm_compute; inversion 1 as [| ? ? ? Hin]; inversion Hin |]).
    apply NoDup_nil_2.
  - split; [exact Hnodup | exact Hlen].
Defined.

Lemma saveTemplate_then_selectTemplate_witness :
  let g' := (Templates.saveTemplate (unicode := ascii_tables) editor0 None).1 in
  exists i,
    Templates.templates g' !! i
    = Some {| Templates.Name := "bye"; Templates.Headers := "Subject: good bye";
              Templates.Body := "Good bye."; Templates.Description := "farewell" |}
    /\ (forall j t, Templates.templates g' !! j = Some t -> j < i ->
                    Templates.Name t <> "bye")
    /\ Templates.selectTemplate g' (Z.of_nat i)
       = Return {| Templates.templates := Templates.templates g';
                   Templates.selectedTemplate := Z.of_nat i;
                   Templates.templateName := "bye";
                   Templates.templateDesc := "farewell";
                   Templates.templateEditor := "Subject: good bye";
                   Templates.messageEnt := "Good bye." |}.
Proof.
  apply (saveTemplate_then_selectTemplate (unicode := ascii_tables) editor0 None).
  discriminate.
Defined.

Lemma saveTemplate_keeps_other_templates_witness :
  filter (fun t => Templates.Name t <> Templates.templateName editor0)
    (Templates.templates (Templates.saveTemplate (unicode := ascii_tables) editor0 None).1)
  = filter (fun t => Templates.Name t <> Templates.templateName editor0)
      (Templates.templates editor0).
Proof.
  apply (proj2 (saveTemplate_keeps_other_templates (unicode := ascii_tables) editor0 None)).
  discriminate.
Defined.

Lemma deleteTemplate_effect_witness :
  Templates.templates (Templates.deleteTemplate editor0 None).1
  = delete 1 (Templates.templates editor0)
  /\ Templates.selectedTemplate (Templates.deleteTemplate editor0 None).1 = (-1)%Z.
Proof.
  destruct (proj2 (deleteTemplate_effect editor0 None)) as (Hts & _ & _ & Hsel).
  - simpl. lia.
  - split; [exact Hts | exact Hsel].
Defined.

(** ** The MIME subject encoder and the status log *)

Lemma encodeMIMESubject_plain_witness :
  encodeMIMESubject (mime := unencoded) "hello" = "hello".
Proof.
  apply (proj2 (encodeMIMESubject_plain (mime := unencoded) "hello"));
    [discriminate | reflexivity].
Defined.

(** A subject of printable ASCII that holds [?=]: Go's encoder leaves it as
    it is, and [encodeMIMESubject] breaks it in two lines. *)
Lemma encodeMIMESubject_breaks_after_each_word_witness :
  encodeMIMESubject (mime := unencoded) "Re: why?=because"
  = "Re: why?=" +:+ lf +:+ "because".
Proof.
  destruct (encodeMIMESubject_breaks_after_each_word (mime := unencoded)
              "Re: why?=because" ["Re: why"] "because") as [Hres _].
  - discriminate.
  - discriminate.
  - constructor; [reflexivity | constructor].
  - reflexivity.
  - reflexivity.
  - exact Hres.
Defined.

Lemma log_bounded_witness :
  (log "Email sent successfully").1 = "Email sent successfully".
Proof.
  apply (proj1 (proj2 (log_bounded "Email sent successfully"))). simpl. lia.
Defined.
